(** * RobotInterfacePython: the Python-facing robot interface of moveit_ros

    A shallow embedding of
    [planning_interface/robot_interface/src/wrap_python_robot_interface.cpp].

    The class holds two shared handles, [robot_model_] and
    [current_state_monitor_], and forwards nine queries to them.  Either
    handle is a shared pointer and may be null, so both are [option]s here and
    a member access through a null handle is the outcome [NullDereference].

    The monitor and the model source live in other packages
    (planning_scene_monitor, common_planning_interface_objects); what the
    wrapper needs from them is modelled below and marked as such.  The robot
    model and robot state are objects of the moveit_core library and are
    modelled by the members the wrapper reaches through their accessors.

    The calling thread is modelled sequentially: the monitored state changes
    only while a caller is blocked in [waitForCurrentState], and the states the
    ingestion path produces during that wait are an explicit argument. *)

From Stdlib Require Import PrimFloat.
From stdpp Require Import gmap strings list fin_maps.

Open Scope string_scope.
Open Scope list_scope.

(** ** Outcomes *)

(** A member call either returns, or goes through a null pointer. *)
Inductive outcome (A : Type) : Type :=
| Returns (a : A)
| NullDereference.
Arguments Returns {A} a.
Arguments NullDereference {A}.

(** ** robot_model (moveit_core) *)

(** moveit_msgs::JointLimits, the two fields the wrapper reads. *)
Record JointLimits := {
  min_position : float;
  max_position : float
}.

Record JointModel := {
  joint_model_name_ : string;
  variable_names_ : list string;
  variable_limits_ : list JointLimits;
  parent_link_model_ : option string;
  child_link_model_ : string
}.

Record LinkModel := {
  link_model_name_ : string;
  parent_joint_model_ : option string
}.

Record JointModelGroup := {
  group_name_ : string;
  group_joint_model_names_ : list string;
  variable_count_ : N
}.

Record RobotModel := {
  model_frame_ : string;
  joint_model_names_ : list string;
  link_model_names_ : list string;
  joint_model_group_names_ : list string;
  joint_model_map_ : gmap string JointModel;
  link_model_map_ : gmap string LinkModel;
  joint_model_group_map_ : gmap string JointModelGroup
}.

Definition getVariableNames (jm : JointModel) : list string := variable_names_ jm.
Definition getVariableLimits (jm : JointModel) : list JointLimits := variable_limits_ jm.

Definition getName (jmg : JointModelGroup) : string := group_name_ jmg.
Definition getVariableCount (jmg : JointModelGroup) : N := variable_count_ jmg.
Definition hasJointModel (jmg : JointModelGroup) (joint : string) : bool :=
  bool_decide (joint ∈ group_joint_model_names_ jmg).

Definition getJointModelNames (m : RobotModel) : list string := joint_model_names_ m.
Definition getLinkModelNames (m : RobotModel) : list string := link_model_names_ m.
Definition getJointModelGroupNames (m : RobotModel) : list string := joint_model_group_names_ m.
Definition getModelFrame (m : RobotModel) : string := model_frame_ m.
Definition getJointModel (m : RobotModel) (name : string) : option JointModel :=
  joint_model_map_ m !! name.
Definition getLinkModel (m : RobotModel) (name : string) : option LinkModel :=
  link_model_map_ m !! name.
Definition getJointModelGroup (m : RobotModel) (name : string) : option JointModelGroup :=
  joint_model_group_map_ m !! name.

(** All variables of the model, joint by joint. *)
Definition getVariableNamesOfModel (m : RobotModel) : list string :=
  mjoin ((λ kv : string * JointModel, getVariableNames kv.2) <$> map_to_list (joint_model_map_ m)).


(** ** robot_state (moveit_core) and Eigen *)

Record Vector3d := { vx : float; vy : float; vz : float }.
Record Quaterniond := { qx : float; qy : float; qz : float; qw : float }.

(** Eigen::Affine3d: a translation and a 3x3 linear part, row by row. *)
Record Affine3d := {
  translation : Vector3d;
  linear : list float
}.

Record JointState := {
  joint_state_model_ : JointModel;
  variable_values_ : list float
}.

Record LinkState := {
  link_state_name_ : string;
  global_link_transform_ : Affine3d
}.

Record RobotState := {
  joint_state_map_ : gmap string JointState;
  link_state_map_ : gmap string LinkState
}.

Definition getVariableValues (js : JointState) : list float := variable_values_ js.
Definition getGlobalLinkTransform (ls : LinkState) : Affine3d := global_link_transform_ ls.
Definition getJointState (st : RobotState) (name : string) : option JointState :=
  joint_state_map_ st !! name.
Definition getLinkState (st : RobotState) (name : string) : option LinkState :=
  link_state_map_ st !! name.

(** The name/value pairs of one joint state, in the joint's variable order. *)
Definition jointStateValues (js : JointState) : list (string * float) :=
  zip (getVariableNames (joint_state_model_ js)) (getVariableValues js).

(** RobotState::getStateValues: every variable the state holds a value for. *)
Definition getStateValues (st : RobotState) : gmap string float :=
  list_to_map (mjoin ((λ kv : string * JointState, jointStateValues kv.2)
                        <$> map_to_list (joint_state_map_ st))).

(** ** CurrentStateMonitor (planning_scene_monitor) *)

(** Modelled from the spec: the StateMonitor, class CurrentStateMonitor of the
    planning_scene_monitor package, which is not among the sources.  It owns
    the monitored state, an activity flag (inactive at creation) and its
    subscriptions to the update source, and knows the model whose variables
    make a state complete. *)
Record CurrentStateMonitor := {
  state_monitor_started_ : bool;
  subscriptions_ : nat;
  monitored_model_ : RobotModel;
  robot_state_ : RobotState
}.

Definition isActive (mon : CurrentStateMonitor) : bool := state_monitor_started_ mon.

(** Modelled from the spec: CurrentStateMonitor::startStateMonitor.
    "Transition to Active, begin ingest (subscribes to the external update
    source); idempotent if already Active." *)
Definition startStateMonitor (mon : CurrentStateMonitor) : CurrentStateMonitor :=
  if state_monitor_started_ mon then mon
  else {| state_monitor_started_ := true;
          subscriptions_ := S (subscriptions_ mon);
          monitored_model_ := monitored_model_ mon;
          robot_state_ := robot_state_ mon |}.

(** Modelled from the spec: CurrentStateMonitor::getCurrentState, the snapshot
    of the monitored state; "may be called at any time, including before
    start or before completeness, returning whatever is known". *)
Definition getCurrentState (mon : CurrentStateMonitor) : RobotState := robot_state_ mon.

(** Modelled from the spec: CurrentStateMonitor::getCurrentStateValues, the
    same snapshot as a mapping from variable name to value. *)
Definition getCurrentStateValues (mon : CurrentStateMonitor) : gmap string float :=
  getStateValues (robot_state_ mon).

(** Modelled from the spec: CurrentStateMonitor::haveCompleteState.
    "True iff every required variable has been set at least once", the
    required variables being all the variables of the model. *)
Definition haveCompleteState (mon : CurrentStateMonitor) : bool :=
  forallb (λ v, bool_decide (is_Some (getCurrentStateValues mon !! v)))
          (getVariableNamesOfModel (monitored_model_ mon)).

(** Modelled from the spec: the ingestion path, which is not among the
    sources.  An update event is merged as a whole; [st] is the monitored
    state once it has been, and nothing else of the monitor changes. *)
Definition ingest (mon : CurrentStateMonitor) (st : RobotState) : CurrentStateMonitor :=
  {| state_monitor_started_ := state_monitor_started_ mon;
     subscriptions_ := subscriptions_ mon;
     monitored_model_ := monitored_model_ mon;
     robot_state_ := st |}.

(** Modelled from the spec: CurrentStateMonitor::waitForCurrentState.
    "Blocks the calling execution context until the state is complete or the
    timeout elapses; returns whether completeness was reached."  [arrivals]
    are the successive monitored states the ingestion path produces before
    the timeout elapses; an inactive monitor ingests nothing. *)
Fixpoint waitForCurrentState (mon : CurrentStateMonitor) (timeout : float)
    (arrivals : list RobotState) : bool * CurrentStateMonitor :=
  if haveCompleteState mon then (true, mon)
  else
    match arrivals with
    | [] => (false, mon)
    | st :: later =>
      if isActive mon then waitForCurrentState (ingest mon st) timeout later
      else (false, mon)
    end.

(** ** RobotInterfacePython *)

Record RobotInterfacePython := {
  robot_model_ : option RobotModel;
  current_state_monitor_ : option CurrentStateMonitor
}.

(** What the calling thread can observe of a call besides its result: the
    two log macros and the two state-changing calls on the monitor. *)
Inductive Event :=
| ROS_ERROR (msg : string)
| ROS_WARN (msg : string)
| StartStateMonitor
| WaitForCurrentState (timeout : float) (complete : bool).

Definition unable_msg : string := "Unable to get current robot state".
Definition not_known_msg : string :=
  "Joint values for monitored state are requested but the full state is not known".

Section Interface.

(** [Eigen::Quaterniond q(t.rotation())], Eigen's own computation. *)
Variable Quaterniond_of_rotation : Affine3d → Quaterniond.

(** The shared-object factories of common_planning_interface_objects.  The
    model source yields no model when the description cannot be resolved.
    The monitor source is handed the model handle as it is, null or not; what
    it does with it is its own affair, and it may return a monitor, return
    none, or not return at all. *)
Variable getSharedRobotModel : string → option RobotModel.
Variable getSharedStateMonitor : option RobotModel → outcome (option CurrentStateMonitor).

(** The constructor: two assignments, and no test of what the model source
    handed back. *)
Definition RobotInterfacePython_new (robot_description : string)
    : outcome RobotInterfacePython :=
  let robot_model := getSharedRobotModel robot_description in
  match getSharedStateMonitor robot_model with
  | NullDereference => NullDereference
  | Returns monitor =>
    Returns {| robot_model_ := robot_model; current_state_monitor_ := monitor |}
  end.

Definition getJointNames (ri : RobotInterfacePython) : outcome (list string) :=
  match robot_model_ ri with
  | None => NullDereference
  | Some m => Returns (getJointModelNames m)
  end.

Definition getLinkNames (ri : RobotInterfacePython) : outcome (list string) :=
  match robot_model_ ri with
  | None => NullDereference
  | Some m => Returns (getLinkModelNames m)
  end.

Definition getGroupNames (ri : RobotInterfacePython) : outcome (list string) :=
  match robot_model_ ri with
  | None => NullDereference
  | Some m => Returns (getJointModelGroupNames m)
  end.

Definition getJointLimits (ri : RobotInterfacePython) (name : string)
    : outcome (list (list float)) :=
  match robot_model_ ri with
  | None => NullDereference
  | Some m =>
    match getJointModel m name with
    | Some jm =>
      Returns ((λ lim, [min_position lim; max_position lim]) <$> getVariableLimits jm)
    | None => Returns []
    end
  end.

Definition getPlanningFrame (ri : RobotInterfacePython) : outcome string :=
  match robot_model_ ri with
  | None => NullDereference
  | Some m => Returns (getModelFrame m)
  end.

Definition ensureCurrentState (ri : RobotInterfacePython) (arrivals : list RobotState)
    : bool * RobotInterfacePython * list Event :=
  match current_state_monitor_ ri with
  | None => (false, ri, [ROS_ERROR unable_msg])
  | Some mon =>
    if negb (isActive mon) then
      let mon1 := startStateMonitor mon in
      let '(complete, mon2) := waitForCurrentState mon1 1%float arrivals in
      (true,
       {| robot_model_ := robot_model_ ri; current_state_monitor_ := Some mon2 |},
       [StartStateMonitor; WaitForCurrentState 1%float complete]
         ++ (if complete then [] else [ROS_WARN not_known_msg]))
    else (true, ri, [])
  end.

(** The seven numbers [getLinkPose] puts in its list for a link state. *)
Definition poseOfLinkState (ls : LinkState) : list float :=
  let t := getGlobalLinkTransform ls in
  let q := Quaterniond_of_rotation t in
  [vx (translation t); vy (translation t); vz (translation t); qx q; qy q; qz q; qw q].

Definition getLinkPose (ri : RobotInterfacePython) (name : string)
    (arrivals : list RobotState)
    : outcome (list float * RobotInterfacePython * list Event) :=
  let '(ok, ri1, log) := ensureCurrentState ri arrivals in
  if negb ok then Returns ([], ri1, log)
  else
    match current_state_monitor_ ri1 with
    | None => NullDereference
    | Some mon =>
      let state := getCurrentState mon in
      match getLinkState state name with
      | Some ls => Returns (poseOfLinkState ls, ri1, log)
      | None => Returns ([], ri1, log)
      end
    end.

Definition getCurrentJointValues (ri : RobotInterfacePython) (name : string)
    (arrivals : list RobotState)
    : outcome (list float * RobotInterfacePython * list Event) :=
  let '(ok, ri1, log) := ensureCurrentState ri arrivals in
  if negb ok then Returns ([], ri1, log)
  else
    match current_state_monitor_ ri1 with
    | None => NullDereference
    | Some mon =>
      let state := getCurrentState mon in
      match getJointState state name with
      | Some js => Returns (getVariableValues js, ri1, log)
      | None => Returns ([], ri1, log)
      end
    end.

(** The loop [for (it = vars.begin(); it != vars.end(); ++it) d[it->first] = it->second]. *)
Definition dictFromMap (vars : gmap string float) : gmap string float :=
  foldl (λ d kv, <[kv.1 := kv.2]> d) ∅ (map_to_list vars).

Definition getCurrentVariableValues (ri : RobotInterfacePython)
    (arrivals : list RobotState)
    : outcome (gmap string float * RobotInterfacePython * list Event) :=
  match current_state_monitor_ ri with
  | None => Returns (∅, ri, [ROS_ERROR unable_msg])
  | Some mon =>
    let started := negb (isActive mon) in
    let mon1 := if started then startStateMonitor mon else mon in
    let '(complete, mon2) := waitForCurrentState mon1 1%float arrivals in
    Returns (dictFromMap (getCurrentStateValues mon2),
             {| robot_model_ := robot_model_ ri; current_state_monitor_ := Some mon2 |},
             (if started then [StartStateMonitor] else [])
               ++ [WaitForCurrentState 1%float complete]
               ++ (if complete then [] else [ROS_WARN not_known_msg]))
  end.

(** The body of the loop over the group names: [group] is the best group so
    far, and a name the model cannot resolve is dereferenced all the same. *)
Fixpoint findMinContainingGroup_loop (m : RobotModel) (joint_name : string)
    (gnames : list string) (group : option JointModelGroup)
    : outcome (option JointModelGroup) :=
  match gnames with
  | [] => Returns group
  | gname :: rest =>
    match getJointModelGroup m gname with
    | None => NullDereference
    | Some jmg =>
      findMinContainingGroup_loop m joint_name rest
        (if hasJointModel jmg joint_name then
           match group with
           | None => Some jmg
           | Some g =>
             if (getVariableCount jmg <? getVariableCount g)%N then Some jmg else Some g
           end
         else group)
    end
  end.

Definition findMinContainingGroup (ri : RobotInterfacePython) (joint_name : string)
    : outcome (option string) :=
  match robot_model_ ri with
  | None => NullDereference
  | Some m =>
    match findMinContainingGroup_loop m joint_name (getJointModelGroupNames m) None with
    | NullDereference => NullDereference
    | Returns group => Returns (getName <$> group)
    end
  end.

End Interface.

(** ** The binding surface *)

(** The nine functions [wrap_robot_interface] registers, as calls. *)
Inductive Call :=
| get_joint_names
| get_group_names
| get_link_names
| get_joint_limits (name : string)
| get_link_pose (name : string)
| get_planning_frame
| get_current_variable_values
| get_current_joint_values (name : string)
| find_min_containing_group (joint_name : string).

(** What a call hands back to Python. *)
Inductive PyValue :=
| PyStrings (l : list string)
| PyLimits (l : list (list float))
| PyDoubles (l : list float)
| PyString (s : option string)
| PyDict (d : gmap string float).

(** A const member function: it returns a value and cannot touch the object. *)
Definition constCall {A : Type} (wrap : A → PyValue) (ri : RobotInterfacePython)
    (r : outcome A) : outcome (PyValue * RobotInterfacePython * list Event) :=
  match r with
  | Returns a => Returns (wrap a, ri, [])
  | NullDereference => NullDereference
  end.

Definition mutCall {A : Type} (wrap : A → PyValue)
    (r : outcome (A * RobotInterfacePython * list Event))
    : outcome (PyValue * RobotInterfacePython * list Event) :=
  match r with
  | Returns (a, ri1, log) => Returns (wrap a, ri1, log)
  | NullDereference => NullDereference
  end.

Definition call (Quaterniond_of_rotation : Affine3d → Quaterniond)
    (ri : RobotInterfacePython) (c : Call) (arrivals : list RobotState)
    : outcome (PyValue * RobotInterfacePython * list Event) :=
  match c with
  | get_joint_names => constCall PyStrings ri (getJointNames ri)
  | get_group_names => constCall PyStrings ri (getGroupNames ri)
  | get_link_names => constCall PyStrings ri (getLinkNames ri)
  | get_joint_limits name => constCall PyLimits ri (getJointLimits ri name)
  | get_link_pose name =>
    mutCall PyDoubles (getLinkPose Quaterniond_of_rotation ri name arrivals)
  | get_planning_frame => constCall (λ s, PyString (Some s)) ri (getPlanningFrame ri)
  | get_current_variable_values => mutCall PyDict (getCurrentVariableValues ri arrivals)
  | get_current_joint_values name => mutCall PyDoubles (getCurrentJointValues ri name arrivals)
  | find_min_containing_group joint_name =>
    constCall PyString ri (findMinContainingGroup ri joint_name)
  end.

(** The calls that only read the kinematic model. *)
Definition modelOnly (c : Call) : bool :=
  match c with
  | get_link_pose _ | get_current_variable_values | get_current_joint_values _ => false
  | _ => true
  end.

(** A sequence of calls, each with the states arriving during its wait; the
    logs are concatenated in call order. *)
Fixpoint calls (Quaterniond_of_rotation : Affine3d → Quaterniond)
    (ri : RobotInterfacePython) (cs : list (Call * list RobotState))
    : outcome (list PyValue * RobotInterfacePython * list Event) :=
  match cs with
  | [] => Returns ([], ri, [])
  | (c, arrivals) :: rest =>
    match call Quaterniond_of_rotation ri c arrivals with
    | NullDereference => NullDereference
    | Returns (v, ri1, log1) =>
      match calls Quaterniond_of_rotation ri1 rest with
      | NullDereference => NullDereference
      | Returns (vs, ri2, log2) => Returns (v :: vs, ri2, log1 ++ log2)
      end
    end
  end.

(** ** A three-joint arm, used to run the definitions *)

Definition revolute (name parent child : string) (lo hi : float) : JointModel :=
  {| joint_model_name_ := name;
     variable_names_ := [name];
     variable_limits_ := [{| min_position := lo; max_position := hi |}];
     parent_link_model_ := Some parent;
     child_link_model_ := child |}.

Definition shoulder : JointModel := revolute "shoulder" "base" "upper_arm" (-1)%float 1%float.
Definition elbow : JointModel := revolute "elbow" "upper_arm" "forearm" (-2)%float 2%float.
Definition wrist : JointModel := revolute "wrist" "forearm" "hand" (-0.5)%float 0.5%float.

Definition armGroup : JointModelGroup :=
  {| group_name_ := "arm";
     group_joint_model_names_ := ["shoulder"; "elbow"; "wrist"];
     variable_count_ := 3 |}.
Definition lowerGroup : JointModelGroup :=
  {| group_name_ := "lower";
     group_joint_model_names_ := ["elbow"; "wrist"];
     variable_count_ := 2 |}.
Definition upperGroup : JointModelGroup :=
  {| group_name_ := "upper";
     group_joint_model_names_ := ["shoulder"; "elbow"];
     variable_count_ := 2 |}.

Definition arm : RobotModel :=
  {| model_frame_ := "base";
     joint_model_names_ := ["shoulder"; "elbow"; "wrist"];
     link_model_names_ := ["base"; "upper_arm"; "forearm"; "hand"];
     joint_model_group_names_ := ["arm"; "lower"; "upper"];
     joint_model_map_ :=
       list_to_map [("shoulder", shoulder); ("elbow", elbow); ("wrist", wrist)];
     link_model_map_ :=
       list_to_map
         [("base", {| link_model_name_ := "base"; parent_joint_model_ := None |});
          ("upper_arm",
           {| link_model_name_ := "upper_arm"; parent_joint_model_ := Some "shoulder" |});
          ("forearm",
           {| link_model_name_ := "forearm"; parent_joint_model_ := Some "elbow" |});
          ("hand", {| link_model_name_ := "hand"; parent_joint_model_ := Some "wrist" |})];
     joint_model_group_map_ :=
       list_to_map [("arm", armGroup); ("lower", lowerGroup); ("upper", upperGroup)] |}.

(** A link placed at a point, not rotated. *)
Definition placed (name : string) (x y z : float) : LinkState :=
  {| link_state_name_ := name;
     global_link_transform_ :=
       {| translation := {| vx := x; vy := y; vz := z |};
          linear := [1; 0; 0; 0; 1; 0; 0; 0; 1]%float |} |}.

Definition linksAtRest : gmap string LinkState :=
  list_to_map
    [("base", placed "base" 0 0 0);
     ("upper_arm", placed "upper_arm" 0 0 0.5);
     ("forearm", placed "forearm" 0 0 1);
     ("hand", placed "hand" 0.25 0 1.5)]%float.

Definition valued (jm : JointModel) (x : float) : JointState :=
  {| joint_state_model_ := jm; variable_values_ := [x] |}.

(** No joint value received yet; the link states are there all the same. *)
Definition nothingKnown : RobotState :=
  {| joint_state_map_ := ∅; link_state_map_ := linksAtRest |}.

(** Only the elbow has been received. *)
Definition elbowKnown : RobotState :=
  {| joint_state_map_ := list_to_map [("elbow", valued elbow 0.75%float)];
     link_state_map_ := linksAtRest |}.

Definition allKnown : RobotState :=
  {| joint_state_map_ :=
       list_to_map
         [("shoulder", valued shoulder 0%float); ("elbow", valued elbow 0.75%float);
          ("wrist", valued wrist 0.125%float)];
     link_state_map_ := linksAtRest |}.

Definition idleMonitor : CurrentStateMonitor :=
  {| state_monitor_started_ := false;
     subscriptions_ := 0;
     monitored_model_ := arm;
     robot_state_ := nothingKnown |}.

Definition activeMonitor : CurrentStateMonitor :=
  {| state_monitor_started_ := true;
     subscriptions_ := 1;
     monitored_model_ := arm;
     robot_state_ := elbowKnown |}.

Definition idleRobot : RobotInterfacePython :=
  {| robot_model_ := Some arm; current_state_monitor_ := Some idleMonitor |}.
Definition activeRobot : RobotInterfacePython :=
  {| robot_model_ := Some arm; current_state_monitor_ := Some activeMonitor |}.
Definition unmonitoredRobot : RobotInterfacePython :=
  {| robot_model_ := Some arm; current_state_monitor_ := None |}.

(** Eigen's quaternion for the link states above, none of which is rotated. *)
Definition noRotation (t : Affine3d) : Quaterniond :=
  {| qx := 0; qy := 0; qz := 0; qw := 1 |}.

(** A model source that resolves one description. *)
Definition armSource (robot_description : string) : option RobotModel :=
  if decide (robot_description = "robot_description") then Some arm else None.

(** Modelled from the spec: the monitor source, getSharedStateMonitor of
    common_planning_interface_objects, which is not among the sources.  A
    monitor is "created in the inactive state"; and the spec counts "no
    StateMonitor wired at all" among the conditions an interface can be in,
    which is what this source leaves an interface with when it is given no
    model to monitor. *)
Definition armMonitorSource (robot_model : option RobotModel)
    : outcome (option CurrentStateMonitor) :=
  match robot_model with
  | Some m =>
    Returns (Some {| state_monitor_started_ := false;
                     subscriptions_ := 0;
                     monitored_model_ := m;
                     robot_state_ := nothingKnown |})
  | None => Returns None
  end.

(** A monitor source that goes through the model handle it is given. *)
Definition strictMonitorSource (robot_model : option RobotModel)
    : outcome (option CurrentStateMonitor) :=
  match robot_model with
  | Some m => armMonitorSource (Some m)
  | None => NullDereference
  end.

(** A run of queries on the model, some repeated. *)
Definition modelQueries : list (Call * list RobotState) :=
  [(get_joint_names, []); (find_min_containing_group "elbow", [allKnown]);
   (get_joint_limits "wrist", []); (get_planning_frame, [allKnown]);
   (get_joint_names, []); (get_group_names, []); (get_link_names, [])].

(** ** Properties stated over the model *)

(** What [getLinkPose] and [getCurrentJointValues] serve from a state. *)
Definition servedLinkPose (Quaterniond_of_rotation : Affine3d → Quaterniond)
    (st : RobotState) (name : string) : list float :=
  match getLinkState st name with
  | Some ls => poseOfLinkState Quaterniond_of_rotation ls
  | None => []
  end.

Definition servedJointValues (st : RobotState) (name : string) : list float :=
  match getJointState st name with
  | Some js => getVariableValues js
  | None => []
  end.

(** The interface with its monitor replaced. *)
Definition withMonitor (ri : RobotInterfacePython) (mon : CurrentStateMonitor)
    : RobotInterfacePython :=
  {| robot_model_ := robot_model_ ri; current_state_monitor_ := Some mon |}.

(** A state built for model [m] has joint and link states only for joints
    and links of [m]. *)
Definition stateOfModel (m : RobotModel) (st : RobotState) : Prop :=
  dom (joint_state_map_ st) ⊆ dom (joint_model_map_ m) ∧
  dom (link_state_map_ st) ⊆ dom (link_model_map_ m).

(** No two variables of a state share a name, and every joint state has as
    many values as its joint has variables. *)
Definition distinctVariables (st : RobotState) : Prop :=
  NoDup ((mjoin ((λ kv : string * JointState, jointStateValues kv.2)
                   <$> map_to_list (joint_state_map_ st))).*1) ∧
  map_Forall (λ _ js, length (getVariableNames (joint_state_model_ js))
                      = length (getVariableValues js)) (joint_state_map_ st).

(** Where a query on the model can go through a null pointer. *)
Definition nullInModel (ri : RobotInterfacePython) : Prop :=
  robot_model_ ri = None ∨
  ∃ m gname, robot_model_ ri = Some m ∧ gname ∈ getJointModelGroupNames m ∧
             getJointModelGroup m gname = None.

(** The warning a wait ends with when it timed out. *)
Definition warnUnless (complete : bool) : list Event :=
  if complete then [] else [ROS_WARN not_known_msg].

(** The log of a call that started the monitor or waited on it. *)
Definition waited (log : list Event) : bool :=
  existsb (λ e, match e with WaitForCurrentState _ _ => true | _ => false end) log.
Definition started (log : list Event) : bool :=
  existsb (λ e, match e with StartStateMonitor => true | _ => false end) log.


(** [r] is the group [findMinContainingGroup] is to pick among [groups], the
    groups in declaration order: none when no group has the joint; otherwise
    a group at some position [i] that has the joint, with no containing group
    of fewer variables anywhere and none of as few variables before [i]. *)
Definition minContaining (groups : list JointModelGroup) (joint_name : string)
    (r : option JointModelGroup) : Prop :=
  match r with
  | None => ∀ g, g ∈ groups → hasJointModel g joint_name = false
  | Some g =>
    ∃ i, groups !! i = Some g ∧ hasJointModel g joint_name = true ∧
      ∀ i' g', groups !! i' = Some g' → hasJointModel g' joint_name = true →
        (getVariableCount g ≤ getVariableCount g')%N ∧
        (i' < i → (getVariableCount g < getVariableCount g')%N)
  end.

(** ** The member functions as they run on the object *)

(** A member function, const or not, is handed the object: nothing in its
    type keeps it from calling through the monitor handle or from logging.
    So each one is a computation that may change the interface and add to
    the log, and what it leaves alone is read off its body. *)
Definition Member (A : Type) : Type :=
  RobotInterfacePython → outcome (A * RobotInterfacePython * list Event).

Definition result {A : Type} (a : A) : Member A :=
  λ ri, Returns (a, ri, []).

Definition andThen {A B : Type} (c : Member A) (k : A → Member B) : Member B :=
  λ ri,
    match c ri with
    | NullDereference => NullDereference
    | Returns (a, ri1, log1) =>
      match k a ri1 with
      | NullDereference => NullDereference
      | Returns (b, ri2, log2) => Returns (b, ri2, log1 ++ log2)
      end
    end.

(** [p->...]: the pointee, or a null dereference. *)
Definition deref {A : Type} (p : option A) : Member A :=
  λ ri,
    match p with
    | Some a => Returns (a, ri, [])
    | None => NullDereference
    end.

(** [robot_model_->...] *)
Definition derefModel : Member RobotModel :=
  λ ri, deref (robot_model_ ri) ri.

Module OnObject.

Definition getJointNames : Member (list string) :=
  andThen derefModel (λ m, result (getJointModelNames m)).

Definition getLinkNames : Member (list string) :=
  andThen derefModel (λ m, result (getLinkModelNames m)).

Definition getGroupNames : Member (list string) :=
  andThen derefModel (λ m, result (getJointModelGroupNames m)).

Definition getJointLimits (name : string) : Member (list (list float)) :=
  andThen derefModel (λ m,
    match getJointModel m name with
    | Some jm =>
      result ((λ lim, [min_position lim; max_position lim]) <$> getVariableLimits jm)
    | None => result []
    end).

Definition getPlanningFrame : Member string :=
  andThen derefModel (λ m, result (getModelFrame m)).

Fixpoint findMinContainingGroup_loop (m : RobotModel) (joint_name : string)
    (gnames : list string) (group : option JointModelGroup)
    : Member (option JointModelGroup) :=
  match gnames with
  | [] => result group
  | gname :: rest =>
    andThen (deref (getJointModelGroup m gname)) (λ jmg,
      findMinContainingGroup_loop m joint_name rest
        (if hasJointModel jmg joint_name then
           match group with
           | None => Some jmg
           | Some g =>
             if (getVariableCount jmg <? getVariableCount g)%N then Some jmg else Some g
           end
         else group))
  end.

Definition findMinContainingGroup (joint_name : string) : Member (option string) :=
  andThen derefModel (λ m,
    andThen (findMinContainingGroup_loop m joint_name (getJointModelGroupNames m) None)
      (λ group, result (getName <$> group))).

(** The registered functions, each run on the object. *)
Definition call (Quaterniond_of_rotation : Affine3d → Quaterniond) (c : Call)
    (arrivals : list RobotState) : Member PyValue :=
  match c with
  | get_joint_names => andThen getJointNames (λ l, result (PyStrings l))
  | get_group_names => andThen getGroupNames (λ l, result (PyStrings l))
  | get_link_names => andThen getLinkNames (λ l, result (PyStrings l))
  | get_joint_limits name => andThen (getJointLimits name) (λ l, result (PyLimits l))
  | get_link_pose name =>
    andThen (λ ri, getLinkPose Quaterniond_of_rotation ri name arrivals)
      (λ l, result (PyDoubles l))
  | get_planning_frame => andThen getPlanningFrame (λ s, result (PyString (Some s)))
  | get_current_variable_values =>
    andThen (λ ri, getCurrentVariableValues ri arrivals) (λ d, result (PyDict d))
  | get_current_joint_values name =>
    andThen (λ ri, getCurrentJointValues ri name arrivals) (λ l, result (PyDoubles l))
  | find_min_containing_group joint_name =>
    andThen (findMinContainingGroup joint_name) (λ s, result (PyString s))
  end.

Fixpoint calls (Quaterniond_of_rotation : Affine3d → Quaterniond)
    (cs : list (Call * list RobotState)) : Member (list PyValue) :=
  match cs with
  | [] => result []
  | (c, arrivals) :: rest =>
    andThen (call Quaterniond_of_rotation c arrivals) (λ v,
      andThen (calls Quaterniond_of_rotation rest) (λ vs, result (v :: vs)))
  end.

End OnObject.

(** ** Absence of a joint value, as the spec has it *)


(** Only the shoulder has been received: the links up to the upper arm are
    placed, the ones below the elbow are not. *)
Definition shoulderKnown : RobotState :=
  {| joint_state_map_ := list_to_map [("shoulder", valued shoulder 0.25%float)];
     link_state_map_ :=
       list_to_map
         [("base", placed "base" 0 0 0);
          ("upper_arm", placed "upper_arm" 0 0 0.5)]%float |}.

Definition shoulderMonitor : CurrentStateMonitor :=
  {| state_monitor_started_ := false;
     subscriptions_ := 0;
     monitored_model_ := arm;
     robot_state_ := shoulderKnown |}.

Definition shoulderRobot : RobotInterfacePython :=
  {| robot_model_ := Some arm; current_state_monitor_ := Some shoulderMonitor |}.

(** ** Counting what a log holds *)

Definition isStart (e : Event) : bool :=
  match e with StartStateMonitor => true | _ => false end.
Definition isTimedOutWait (e : Event) : bool :=
  match e with WaitForCurrentState _ false => true | _ => false end.
Definition isWarning (e : Event) : bool :=
  match e with ROS_WARN _ => true | _ => false end.
Definition isError (e : Event) : bool :=
  match e with ROS_ERROR _ => true | _ => false end.

Fixpoint occurrences (p : Event → bool) (log : list Event) : nat :=
  match log with
  | [] => 0
  | e :: rest => (if p e then 1 else 0) + occurrences p rest
  end.

(** Every wait in the log was given the one second of the source. *)
Definition oneSecondWait (e : Event) : Prop :=
  match e with WaitForCurrentState timeout _ => timeout = 1%float | _ => True end.

(** The live-state queries among a run of calls. *)
Fixpoint liveCalls (cs : list (Call * list RobotState)) : nat :=
  match cs with
  | [] => 0
  | c :: rest => (if modelOnly c.1 then 0 else 1) + liveCalls rest
  end.

(** The calls that go through [ensureCurrentState] or only read the model:
    all but [get_current_variable_values], which waits on its own. *)
Definition readsThroughEnsure (c : Call) : bool :=
  match c with get_current_variable_values => false | _ => true end.

(** More interfaces to run the definitions on: a monitor but no model; a
    model that declares a group name it cannot resolve; the arm with its
    groups declared in another order. *)
Definition modellessRobot : RobotInterfacePython :=
  {| robot_model_ := None; current_state_monitor_ := Some idleMonitor |}.

Definition withGroupNames (m : RobotModel) (gnames : list string) : RobotModel :=
  {| model_frame_ := model_frame_ m;
     joint_model_names_ := joint_model_names_ m;
     link_model_names_ := link_model_names_ m;
     joint_model_group_names_ := gnames;
     joint_model_map_ := joint_model_map_ m;
     link_model_map_ := link_model_map_ m;
     joint_model_group_map_ := joint_model_group_map_ m |}.

Definition danglingRobot : RobotInterfacePython :=
  {| robot_model_ := Some (withGroupNames arm ["arm"; "upper"; "gripper"]);
     current_state_monitor_ := None |}.

Definition reorderedRobot : RobotInterfacePython :=
  {| robot_model_ := Some (withGroupNames arm ["upper"; "lower"; "arm"]);
     current_state_monitor_ := Some idleMonitor |}.

(** A run that mixes queries on the model with live-state queries. *)
Definition mixedQueries : list (Call * list RobotState) :=
  [(get_joint_names, []); (get_link_pose "hand", []);
   (get_current_variable_values, [elbowKnown]);
   (get_current_joint_values "elbow", [allKnown]);
   (find_min_containing_group "wrist", []);
   (get_current_variable_values, [allKnown])].

(** A run of reads for an active monitor. *)
Definition activeReads : list (Call * list RobotState) :=
  [(get_link_pose "hand", [allKnown]); (get_joint_limits "elbow", []);
   (get_current_joint_values "elbow", [allKnown]); (get_link_pose "forearm", [])].

(** ** The minimal containing group *)

Lemma minContaining_snoc groups joint_name group jmg :
  minContaining groups joint_name group →
  minContaining (groups ++ [jmg]) joint_name
    (if hasJointModel jmg joint_name then
       match group with
       | None => Some jmg
       | Some g =>
         if (getVariableCount jmg <? getVariableCount g)%N then Some jmg else Some g
       end
     else group).
Proof.
  intros Hinv.
  destruct (hasJointModel jmg joint_name) eqn:Hhas.
  - destruct group as [g|]; simpl in *.
    + destruct Hinv as (i & Hi & Hg & Hmin).
      destruct (N.ltb_spec (getVariableCount jmg) (getVariableCount g)) as [Hlt|Hge].
      * exists (length groups). split; [|split; [done|]].
        { by rewrite lookup_app_r, Nat.sub_diag by lia. }
        intros i' g' Hi' Hg'.
        destruct (decide (i' < length groups)) as [Hin|Hout].
        -- rewrite lookup_app_l in Hi' by done.
           destruct (Hmin i' g' Hi' Hg') as [Hle _]. lia.
        -- rewrite lookup_app_r in Hi' by lia.
           destruct (i' - length groups) as [|k] eqn:Hk; simpl in Hi'; [|done].
           injection Hi' as <-. lia.
      * exists i. split; [|split; [done|]].
        { apply lookup_app_l_Some. done. }
        intros i' g' Hi' Hg'.
        destruct (decide (i' < length groups)) as [Hin|Hout].
        -- rewrite lookup_app_l in Hi' by done. by apply Hmin.
        -- rewrite lookup_app_r in Hi' by lia.
           destruct (i' - length groups) as [|k] eqn:Hk; simpl in Hi'; [|done].
           injection Hi' as <-. apply lookup_lt_Some in Hi. lia.
    + exists (length groups). split; [|split; [done|]].
      { by rewrite lookup_app_r, Nat.sub_diag by lia. }
      intros i' g' Hi' Hg'.
      destruct (decide (i' < length groups)) as [Hin|Hout].
      * rewrite lookup_app_l in Hi' by done.
        apply list_elem_of_lookup_2 in Hi'. apply Hinv in Hi'. congruence.
      * rewrite lookup_app_r in Hi' by lia.
        destruct (i' - length groups) as [|k] eqn:Hk; simpl in Hi'; [|done].
        injection Hi' as <-. lia.
  - destruct group as [g|]; simpl in *.
    + destruct Hinv as (i & Hi & Hg & Hmin).
      exists i. split; [|split; [done|]].
      { apply lookup_app_l_Some. done. }
      intros i' g' Hi' Hg'.
      destruct (decide (i' < length groups)) as [Hin|Hout].
      * rewrite lookup_app_l in Hi' by done. by apply Hmin.
      * rewrite lookup_app_r in Hi' by lia.
        destruct (i' - length groups) as [|k] eqn:Hk; simpl in Hi'; [|done].
        injection Hi' as <-. congruence.
    + intros g' [Hin| ->%list_elem_of_singleton]%elem_of_app; [by apply Hinv|done].
Qed.

(** The loop keeps [minContaining] over the groups seen so far, and it runs
    to the end when every declared name resolves. *)
Lemma findMinContainingGroup_loop_spec m joint_name gnames :
  ∀ seen rest group,
    mapM (getJointModelGroup m) gnames = Some rest →
    minContaining seen joint_name group →
    ∃ r, findMinContainingGroup_loop m joint_name gnames group = Returns r ∧
         minContaining (seen ++ rest) joint_name r.
Proof.
  induction gnames as [|gname gnames IH]; intros seen rest group Hres Hinv.
  - simpl in Hres. injection Hres as <-. rewrite app_nil_r. by exists group.
  - simpl in Hres. simpl.
    destruct (getJointModelGroup m gname) as [jmg|] eqn:Hjmg; [|done].
    simpl in Hres.
    destruct (mapM (getJointModelGroup m) gnames) as [rest'|] eqn:Hrest'; [|done].
    simpl in Hres. injection Hres as <-.
    replace (seen ++ jmg :: rest') with ((seen ++ [jmg]) ++ rest')
      by (by rewrite <- app_assoc).
    apply IH; [done|]. by apply minContaining_snoc.
Qed.

(** ** The monitor and the marshalling loops *)

(** Waiting changes nothing of the monitor but its state, which is the one
    it had or one that arrived; the flag returned is the completeness of the
    state the monitor is left with. *)
Lemma waitForCurrentState_frame timeout arrivals :
  ∀ mon complete mon',
    waitForCurrentState mon timeout arrivals = (complete, mon') →
    state_monitor_started_ mon' = state_monitor_started_ mon ∧
    subscriptions_ mon' = subscriptions_ mon ∧
    monitored_model_ mon' = monitored_model_ mon ∧
    (robot_state_ mon' = robot_state_ mon ∨ robot_state_ mon' ∈ arrivals) ∧
    complete = haveCompleteState mon'.
Proof.
  induction arrivals as [|st later IH]; intros mon complete mon' Hw; simpl in Hw.
  - destruct (haveCompleteState mon) eqn:Hc; injection Hw as <- <-;
      rewrite Hc; repeat split; auto.
  - destruct (haveCompleteState mon) eqn:Hc.
    { injection Hw as <- <-. rewrite Hc. repeat split; auto. }
    destruct (isActive mon) eqn:Ha.
    + apply IH in Hw as (Hs & Hn & Hm & Hst & Hcomp). simpl in *.
      repeat split; try done.
      right. destruct Hst as [-> | Hin]; [left | by right].
    + injection Hw as <- <-. rewrite Hc. repeat split; auto.
Qed.

Lemma startStateMonitor_active mon : isActive (startStateMonitor mon) = true.
Proof. unfold startStateMonitor, isActive. by destruct (state_monitor_started_ mon) eqn:E. Qed.

Lemma startStateMonitor_state mon :
  robot_state_ (startStateMonitor mon) = robot_state_ mon.
Proof. unfold startStateMonitor. by destruct (state_monitor_started_ mon). Qed.

Lemma startStateMonitor_started mon :
  isActive mon = true → startStateMonitor mon = mon.
Proof. unfold startStateMonitor, isActive. by intros ->. Qed.

(** Copying a map into a dictionary entry by entry gives the same mapping. *)
Lemma foldl_insert_union (l : list (string * float)) :
  ∀ acc : gmap string float,
    NoDup l.*1 →
    foldl (λ d kv, <[kv.1 := kv.2]> d) acc l = list_to_map l ∪ acc.
Proof.
  induction l as [|[k x] l IH]; intros acc Hnd; simpl.
  - by rewrite (left_id_L ∅ (∪)).
  - rewrite fmap_cons in Hnd. apply NoDup_cons in Hnd as [Hk Hnd].
    rewrite IH by done.
    rewrite <- insert_union_l. symmetry.
    apply insert_union_r. by apply not_elem_of_list_to_map_1.
Qed.

Lemma dictFromMap_id (vars : gmap string float) : dictFromMap vars = vars.
Proof.
  unfold dictFromMap.
  rewrite foldl_insert_union by apply NoDup_fst_map_to_list.
  by rewrite (right_id_L ∅ (∪)), list_to_map_to_list.
Qed.

(** In a state with distinct variables, the [i]-th value of a joint state is
    what the state's value map holds for the joint's [i]-th variable. *)
Lemma getStateValues_lookup st name js i v x :
  distinctVariables st →
  getJointState st name = Some js →
  getVariableNames (joint_state_model_ js) !! i = Some v →
  getVariableValues js !! i = Some x →
  getStateValues st !! v = Some x.
Proof.
  intros [Hnd _] Hjs Hv Hx.
  unfold getStateValues. apply elem_of_list_to_map_1; [done|].
  apply list_elem_of_join. exists (jointStateValues js). split.
  - apply (list_elem_of_lookup_2 _ i). unfold jointStateValues.
    by apply lookup_zip_Some.
  - apply list_elem_of_fmap. exists (name, js). split; [done|].
    by apply elem_of_map_to_list.
Qed.

(** The three ways [ensureCurrentState] runs. *)
Lemma ensureCurrentState_unmonitored ri arrivals :
  current_state_monitor_ ri = None →
  ensureCurrentState ri arrivals = (false, ri, [ROS_ERROR unable_msg]).
Proof. unfold ensureCurrentState. by intros ->. Qed.

Lemma ensureCurrentState_active ri mon arrivals :
  current_state_monitor_ ri = Some mon →
  isActive mon = true →
  ensureCurrentState ri arrivals = (true, ri, []).
Proof. unfold ensureCurrentState. by intros -> ->. Qed.

Lemma ensureCurrentState_inactive ri mon arrivals complete mon' :
  current_state_monitor_ ri = Some mon →
  isActive mon = false →
  waitForCurrentState (startStateMonitor mon) 1 arrivals = (complete, mon') →
  ensureCurrentState ri arrivals =
    (true, withMonitor ri mon',
     [StartStateMonitor; WaitForCurrentState 1 complete]
       ++ (if complete then [] else [ROS_WARN not_known_msg])).
Proof. unfold ensureCurrentState. by intros -> -> ->. Qed.

(** After [ensureCurrentState] the interface has the monitor it had, started
    if it was not, and the state served is the old one or one that arrived. *)
Lemma ensureCurrentState_inv ri arrivals ok ri1 log :
  ensureCurrentState ri arrivals = (ok, ri1, log) →
  robot_model_ ri1 = robot_model_ ri ∧
  match current_state_monitor_ ri with
  | None => ok = false ∧ ri1 = ri
  | Some mon =>
    ok = true ∧
    ∃ mon1, current_state_monitor_ ri1 = Some mon1 ∧
            isActive mon1 = true ∧
            monitored_model_ mon1 = monitored_model_ mon ∧
            (robot_state_ mon1 = robot_state_ mon ∨ robot_state_ mon1 ∈ arrivals)
  end.
Proof.
  unfold ensureCurrentState.
  destruct (current_state_monitor_ ri) as [mon|] eqn:Hmon.
  - destruct (isActive mon) eqn:Ha; simpl.
    + intros [= <- <- <-]. eauto 10.
    + destruct (waitForCurrentState _ _ _) as [complete mon2] eqn:Hw.
      intros [= <- <- <-]. simpl.
      apply waitForCurrentState_frame in Hw as (Hs & _ & Hm & Hst & _).
      split; [done|]. split; [done|]. exists mon2.
      split; [done|]. split.
      { unfold isActive. rewrite Hs. apply startStateMonitor_active. }
      split.
      { rewrite Hm. unfold startStateMonitor. by destruct (state_monitor_started_ mon). }
      by rewrite startStateMonitor_state in Hst.
  - by intros [= <- <- <-].
Qed.

(** ** How the live-state queries run *)

Lemma getCurrentVariableValues_run ri mon arrivals complete mon' :
  current_state_monitor_ ri = Some mon →
  waitForCurrentState (startStateMonitor mon) 1 arrivals = (complete, mon') →
  getCurrentVariableValues ri arrivals =
    Returns (getCurrentStateValues mon', withMonitor ri mon',
             (if isActive mon then [] else [StartStateMonitor])
               ++ [WaitForCurrentState 1 complete] ++ warnUnless complete).
Proof.
  intros Hmon Hw. unfold getCurrentVariableValues. rewrite Hmon.
  destruct (isActive mon) eqn:Ha; simpl.
  - rewrite startStateMonitor_started in Hw by done.
    rewrite Hw. by rewrite dictFromMap_id.
  - rewrite Hw. by rewrite dictFromMap_id.
Qed.

Lemma getLinkPose_run_inactive quat ri mon name arrivals complete mon' :
  current_state_monitor_ ri = Some mon →
  isActive mon = false →
  waitForCurrentState (startStateMonitor mon) 1 arrivals = (complete, mon') →
  getLinkPose quat ri name arrivals =
    Returns (servedLinkPose quat (getCurrentState mon') name, withMonitor ri mon',
             [StartStateMonitor; WaitForCurrentState 1 complete] ++ warnUnless complete).
Proof.
  intros Hmon Ha Hw. unfold getLinkPose.
  rewrite (ensureCurrentState_inactive ri mon arrivals complete mon') by done.
  simpl. unfold servedLinkPose. by destruct (getLinkState _ _).
Qed.

Lemma getLinkPose_run_active quat ri mon name arrivals :
  current_state_monitor_ ri = Some mon →
  isActive mon = true →
  getLinkPose quat ri name arrivals =
    Returns (servedLinkPose quat (getCurrentState mon) name, ri, []).
Proof.
  intros Hmon Ha. unfold getLinkPose.
  rewrite (ensureCurrentState_active ri mon) by done.
  simpl. rewrite Hmon. unfold servedLinkPose. by destruct (getLinkState _ _).
Qed.

Lemma getCurrentJointValues_run_inactive ri mon name arrivals complete mon' :
  current_state_monitor_ ri = Some mon →
  isActive mon = false →
  waitForCurrentState (startStateMonitor mon) 1 arrivals = (complete, mon') →
  getCurrentJointValues ri name arrivals =
    Returns (servedJointValues (getCurrentState mon') name, withMonitor ri mon',
             [StartStateMonitor; WaitForCurrentState 1 complete] ++ warnUnless complete).
Proof.
  intros Hmon Ha Hw. unfold getCurrentJointValues.
  rewrite (ensureCurrentState_inactive ri mon arrivals complete mon') by done.
  simpl. unfold servedJointValues. by destruct (getJointState _ _).
Qed.

Lemma getCurrentJointValues_run_active ri mon name arrivals :
  current_state_monitor_ ri = Some mon →
  isActive mon = true →
  getCurrentJointValues ri name arrivals =
    Returns (servedJointValues (getCurrentState mon) name, ri, []).
Proof.
  intros Hmon Ha. unfold getCurrentJointValues.
  rewrite (ensureCurrentState_active ri mon) by done.
  simpl. rewrite Hmon. unfold servedJointValues. by destruct (getJointState _ _).
Qed.

Lemma getLinkPose_unmonitored quat ri name arrivals :
  current_state_monitor_ ri = None →
  getLinkPose quat ri name arrivals = Returns ([], ri, [ROS_ERROR unable_msg]).
Proof.
  intros Hmon. unfold getLinkPose.
  by rewrite ensureCurrentState_unmonitored.
Qed.

Lemma getCurrentJointValues_unmonitored ri name arrivals :
  current_state_monitor_ ri = None →
  getCurrentJointValues ri name arrivals = Returns ([], ri, [ROS_ERROR unable_msg]).
Proof.
  intros Hmon. unfold getCurrentJointValues.
  by rewrite ensureCurrentState_unmonitored.
Qed.

Lemma getCurrentVariableValues_unmonitored ri arrivals :
  current_state_monitor_ ri = None →
  getCurrentVariableValues ri arrivals = Returns (∅, ri, [ROS_ERROR unable_msg]).
Proof. intros Hmon. unfold getCurrentVariableValues. by rewrite Hmon. Qed.

(** [getCurrentVariableValues] returns on every interface. *)
Lemma getCurrentVariableValues_returns ri arrivals :
  ∃ d ri1 log, getCurrentVariableValues ri arrivals = Returns (d, ri1, log).
Proof.
  unfold getCurrentVariableValues.
  destruct (current_state_monitor_ ri) as [mon|]; [|eauto].
  destruct (waitForCurrentState _ _ _) as [complete mon2]. eauto.
Qed.

(** A wait always ends, with some flag and some monitor. *)
Lemma waitForCurrentState_total mon timeout arrivals :
  ∃ complete mon', waitForCurrentState mon timeout arrivals = (complete, mon').
Proof. destruct (waitForCurrentState mon timeout arrivals) as [c m']. eauto. Qed.

(** ** C1: the minimal containing group *)

(** C1.  When every declared group name resolves, [findMinContainingGroup]
    returns the name of a group that has the joint and has the fewest
    variables of all groups that have it, the earliest such group in
    declaration order; and it returns none when no group has the joint. *)
Theorem findMinContainingGroup_minimal ri m groups joint_name :
  robot_model_ ri = Some m →
  mapM (getJointModelGroup m) (getJointModelGroupNames m) = Some groups →
  ∃ r, findMinContainingGroup ri joint_name = Returns (getName <$> r) ∧
       minContaining groups joint_name r.
Proof.
  intros Hm Hgroups. unfold findMinContainingGroup. rewrite Hm.
  destruct (findMinContainingGroup_loop_spec m joint_name
              (getJointModelGroupNames m) [] groups None Hgroups) as (r & Hr & Hmin).
  { simpl. intros g Hg. by apply elem_of_nil in Hg. }
  exists r. by rewrite Hr.
Qed.

Lemma findMinContainingGroup_minimal_witness :
  robot_model_ idleRobot = Some arm ∧
  mapM (getJointModelGroup arm) (getJointModelGroupNames arm)
    = Some [armGroup; lowerGroup; upperGroup] ∧
  ∃ r, findMinContainingGroup idleRobot "elbow" = Returns (getName <$> r) ∧
       minContaining [armGroup; lowerGroup; upperGroup] "elbow" r.
Proof.
  split; [reflexivity|]. split; [vm_compute; reflexivity|].
  apply (findMinContainingGroup_minimal idleRobot arm); vm_compute; reflexivity.
Defined.

(** The spec's own example: of two groups that have the joint, the smaller. *)
Example findMinContainingGroup_shoulder :
  findMinContainingGroup idleRobot "shoulder" = Returns (Some "upper").
Proof. vm_compute. reflexivity. Qed.

(** Equal counts: the group declared first. *)
Example findMinContainingGroup_elbow :
  findMinContainingGroup idleRobot "elbow" = Returns (Some "lower").
Proof. vm_compute. reflexivity. Qed.

Example findMinContainingGroup_unknown :
  findMinContainingGroup idleRobot "nose" = Returns None.
Proof. vm_compute. reflexivity. Qed.

(** ** C2: link poses and joints not yet received *)

(** [getLinkPose] always returns, and what it returns is read off the link
    state of that name alone. *)
Lemma getLinkPose_returns quat ri name arrivals :
  ∃ pose ri1 log,
    getLinkPose quat ri name arrivals = Returns (pose, ri1, log) ∧
    match current_state_monitor_ ri1 with
    | None => pose = [] ∧ current_state_monitor_ ri = None
    | Some mon1 => pose = servedLinkPose quat (getCurrentState mon1) name
    end.
Proof.
  destruct (current_state_monitor_ ri) as [mon|] eqn:Hmon.
  - destruct (isActive mon) eqn:Ha.
    + eexists _, _, _. split; [by apply (getLinkPose_run_active quat ri mon)|].
      by rewrite Hmon.
    + destruct (waitForCurrentState_total (startStateMonitor mon) 1 arrivals)
        as (complete & mon' & Hw).
      eexists _, _, _. split; [by apply (getLinkPose_run_inactive quat ri mon)|].
      done.
  - eexists _, _, _. split; [by apply getLinkPose_unmonitored|].
    by rewrite Hmon.
Qed.




(** The elbow has not been received: no pose for the hand, after the
    warning; the upper arm, above the elbow, has its pose. *)
Example getLinkPose_below_and_above_missing_joint :
  getLinkPose noRotation shoulderRobot "hand" [] =
    Returns ([], withMonitor shoulderRobot (startStateMonitor shoulderMonitor),
             [StartStateMonitor; WaitForCurrentState 1 false; ROS_WARN not_known_msg]) ∧
  getLinkPose noRotation shoulderRobot "upper_arm" [] =
    Returns ([0; 0; 0.5; 0; 0; 0; 1]%float,
             withMonitor shoulderRobot (startStateMonitor shoulderMonitor),
             [StartStateMonitor; WaitForCurrentState 1 false; ROS_WARN not_known_msg]).
Proof. split; vm_compute; reflexivity. Qed.

(** ** C3: names the model does not have *)

(** C3.  With a model in place and monitored states built for it, a joint
    name the model does not have gets an empty list of limits and an empty
    list of values, and a link name the model does not have gets an empty
    pose; each call returns. *)
Theorem unknown_names_yield_empty quat ri m name arrivals :
  robot_model_ ri = Some m →
  (∀ mon, current_state_monitor_ ri = Some mon → stateOfModel m (robot_state_ mon)) →
  Forall (stateOfModel m) arrivals →
  (getJointModel m name = None →
     getJointLimits ri name = Returns [] ∧
     ∃ ri1 log, getCurrentJointValues ri name arrivals = Returns ([], ri1, log)) ∧
  (getLinkModel m name = None →
     ∃ ri1 log, getLinkPose quat ri name arrivals = Returns ([], ri1, log)).
Proof.
  intros Hm Hcur Harr.
  assert (Hserved : ∀ mon mon1,
             current_state_monitor_ ri = Some mon →
             robot_state_ mon1 = robot_state_ mon ∨ robot_state_ mon1 ∈ arrivals →
             stateOfModel m (getCurrentState mon1)).
  { intros mon mon1 Hmon [Heq | Hin]; unfold getCurrentState.
    - rewrite Heq. by apply Hcur.
    - by apply (proj1 (Forall_forall _ _) Harr). }
  split.
  - intros Hunknown. split.
    { unfold getJointLimits. by rewrite Hm, Hunknown. }
    unfold getCurrentJointValues.
    destruct (ensureCurrentState ri arrivals) as [[ok ri1] log] eqn:He.
    apply ensureCurrentState_inv in He as [_ He].
    destruct (current_state_monitor_ ri) as [mon|] eqn:Hmon.
    + destruct He as (-> & mon1 & Hmon1 & _ & _ & Hst). simpl. rewrite Hmon1.
      destruct (Hserved mon mon1 eq_refl Hst) as [Hjoints _].
      destruct (getJointState (getCurrentState mon1) name) as [js|] eqn:Hjs; [|eauto].
      exfalso. unfold getJointState in Hjs.
      apply elem_of_dom_2, Hjoints, elem_of_dom in Hjs as [jm Hjm].
      unfold getJointModel in Hunknown. congruence.
    + destruct He as [-> ->]. simpl. eauto.
  - intros Hunknown.
    unfold getLinkPose.
    destruct (ensureCurrentState ri arrivals) as [[ok ri1] log] eqn:He.
    apply ensureCurrentState_inv in He as [_ He].
    destruct (current_state_monitor_ ri) as [mon|] eqn:Hmon.
    + destruct He as (-> & mon1 & Hmon1 & _ & _ & Hst). simpl. rewrite Hmon1.
      destruct (Hserved mon mon1 eq_refl Hst) as [_ Hlinks].
      destruct (getLinkState (getCurrentState mon1) name) as [ls|] eqn:Hls; [|eauto].
      exfalso. unfold getLinkState in Hls.
      apply elem_of_dom_2, Hlinks, elem_of_dom in Hls as [lm Hlm].
      unfold getLinkModel in Hunknown. congruence.
    + destruct He as [-> ->]. simpl. eauto.
Qed.

Lemma stateOfModel_arm_elbowKnown : stateOfModel arm elbowKnown.
Proof. split; apply (bool_decide_unpack _); vm_compute; reflexivity. Defined.

Lemma stateOfModel_arm_nothingKnown : stateOfModel arm nothingKnown.
Proof. split; apply (bool_decide_unpack _); vm_compute; reflexivity. Defined.

Lemma unknown_names_yield_empty_witness :
  getJointModel arm "nose" = None ∧
  getLinkModel arm "nose" = None ∧
  getJointLimits idleRobot "nose" = Returns [] ∧
  (∃ ri1 log, getCurrentJointValues idleRobot "nose" [elbowKnown] = Returns ([], ri1, log)) ∧
  (∃ ri1 log, getLinkPose noRotation idleRobot "nose" [elbowKnown] = Returns ([], ri1, log)).
Proof.
  assert (Hj : getJointModel arm "nose" = None) by (vm_compute; reflexivity).
  assert (Hl : getLinkModel arm "nose" = None) by (vm_compute; reflexivity).
  destruct (unknown_names_yield_empty noRotation idleRobot arm "nose" [elbowKnown])
    as [Hjoint Hlink].
  - reflexivity.
  - intros mon [= <-]. exact stateOfModel_arm_nothingKnown.
  - constructor; [exact stateOfModel_arm_elbowKnown | constructor].
  - destruct (Hjoint Hj) as [Hlim Hval]. destruct (Hlink Hl) as (ri1 & log & Hpose).
    split; [exact Hj|]. split; [exact Hl|]. split; [exact Hlim|].
    split; [exact Hval|]. exists ri1, log. exact Hpose.
Defined.

(** ** C4: when a live-state query starts the monitor and waits *)

(** C4, as the code has it.  With a monitor wired,
    [getCurrentVariableValues] waits on every call, for up to one second,
    after starting the monitor if it was not active, and warns when the wait
    timed out.  [getLinkPose] and [getCurrentJointValues] start the monitor
    and wait (and warn) only when the monitor was not active; on an active
    monitor they serve the state as it is, with no wait and no warning. *)
Theorem live_queries_start_and_wait quat ri mon link joint arrivals complete mon' :
  current_state_monitor_ ri = Some mon →
  waitForCurrentState (startStateMonitor mon) 1 arrivals = (complete, mon') →
  getCurrentVariableValues ri arrivals =
    Returns (getCurrentStateValues mon', withMonitor ri mon',
             (if isActive mon then [] else [StartStateMonitor])
               ++ [WaitForCurrentState 1 complete] ++ warnUnless complete) ∧
  (isActive mon = false →
     getLinkPose quat ri link arrivals =
       Returns (servedLinkPose quat (getCurrentState mon') link, withMonitor ri mon',
                [StartStateMonitor; WaitForCurrentState 1 complete]
                  ++ warnUnless complete) ∧
     getCurrentJointValues ri joint arrivals =
       Returns (servedJointValues (getCurrentState mon') joint, withMonitor ri mon',
                [StartStateMonitor; WaitForCurrentState 1 complete]
                  ++ warnUnless complete)) ∧
  (isActive mon = true →
     getLinkPose quat ri link arrivals =
       Returns (servedLinkPose quat (getCurrentState mon) link, ri, []) ∧
     getCurrentJointValues ri joint arrivals =
       Returns (servedJointValues (getCurrentState mon) joint, ri, [])).
Proof.
  intros Hmon Hw. split; [by apply getCurrentVariableValues_run|]. split; intros Ha.
  - split.
    + by apply (getLinkPose_run_inactive quat ri mon).
    + by apply (getCurrentJointValues_run_inactive ri mon).
  - split.
    + by apply (getLinkPose_run_active quat ri mon).
    + by apply (getCurrentJointValues_run_active ri mon).
Qed.

Lemma live_queries_start_and_wait_witness :
  current_state_monitor_ idleRobot = Some idleMonitor ∧
  waitForCurrentState (startStateMonitor idleMonitor) 1 [elbowKnown; allKnown]
    = (true, ingest (startStateMonitor idleMonitor) allKnown) ∧
  getCurrentVariableValues idleRobot [elbowKnown; allKnown] =
    Returns (getCurrentStateValues (ingest (startStateMonitor idleMonitor) allKnown),
             withMonitor idleRobot (ingest (startStateMonitor idleMonitor) allKnown),
             [StartStateMonitor; WaitForCurrentState 1 true]) ∧
  getLinkPose noRotation idleRobot "hand" [elbowKnown; allKnown] =
    Returns ([0.25; 0; 1.5; 0; 0; 0; 1]%float,
             withMonitor idleRobot (ingest (startStateMonitor idleMonitor) allKnown),
             [StartStateMonitor; WaitForCurrentState 1 true]).
Proof.
  assert (Hw : waitForCurrentState (startStateMonitor idleMonitor) 1 [elbowKnown; allKnown]
               = (true, ingest (startStateMonitor idleMonitor) allKnown))
    by (vm_compute; reflexivity).
  destruct (live_queries_start_and_wait noRotation idleRobot idleMonitor "hand" "elbow"
              [elbowKnown; allKnown] true
              (ingest (startStateMonitor idleMonitor) allKnown) eq_refl Hw)
    as (Hvars & Hidle & _).
  destruct (Hidle eq_refl) as [Hpose _].
  split; [reflexivity|]. split; [exact Hw|]. split; [exact Hvars|]. exact Hpose.
Defined.

(** On an active monitor whose state is incomplete, [getLinkPose] and
    [getCurrentJointValues] do not wait, though a complete state would have
    arrived within the second: the log is empty and the incomplete state is
    served. *)
Lemma active_monitor_is_not_waited_on :
  isActive activeMonitor = true ∧
  haveCompleteState activeMonitor = false ∧
  getLinkPose noRotation activeRobot "hand" [allKnown] =
    Returns ([0.25; 0; 1.5; 0; 0; 0; 1]%float, activeRobot, []) ∧
  getCurrentJointValues activeRobot "elbow" [allKnown] =
    Returns ([0.75]%float, activeRobot, []) ∧
  getCurrentJointValues activeRobot "wrist" [allKnown] =
    Returns ([], activeRobot, []).
Proof. repeat split; vm_compute; reflexivity. Qed.

(** ** C5: a model source that cannot resolve the description *)

(** Every query on the model goes through the model handle. *)
Lemma model_queries_need_model ri name :
  robot_model_ ri = None →
  getJointNames ri = NullDereference ∧
  getLinkNames ri = NullDereference ∧
  getGroupNames ri = NullDereference ∧
  getJointLimits ri name = NullDereference ∧
  getPlanningFrame ri = NullDereference ∧
  findMinContainingGroup ri name = NullDereference.
Proof.
  intros Hm.
  unfold getJointNames, getLinkNames, getGroupNames, getJointLimits,
    getPlanningFrame, findMinContainingGroup.
  by rewrite Hm.
Qed.



(** With a monitor source that goes through the model handle, it is that
    source, not the constructor, that stops the construction. *)
Example unresolved_model_strict_monitor_source :
  RobotInterfacePython_new armSource strictMonitorSource "no_such_description"
    = NullDereference ∧
  RobotInterfacePython_new armSource strictMonitorSource "robot_description"
    = Returns idleRobot.
Proof. split; reflexivity. Qed.

(** ** C6: no monitor wired *)

(** C6.  Without a monitor, [ensureCurrentState] logs the error and returns
    false, and each live-state query returns empty (an empty list, or an
    empty mapping) after that one error, leaving the interface as it was. *)
Theorem no_monitor_yields_empty quat ri link joint arrivals :
  current_state_monitor_ ri = None →
  ensureCurrentState ri arrivals = (false, ri, [ROS_ERROR unable_msg]) ∧
  getLinkPose quat ri link arrivals = Returns ([], ri, [ROS_ERROR unable_msg]) ∧
  getCurrentJointValues ri joint arrivals = Returns ([], ri, [ROS_ERROR unable_msg]) ∧
  getCurrentVariableValues ri arrivals = Returns (∅, ri, [ROS_ERROR unable_msg]).
Proof.
  intros Hmon. split; [by apply ensureCurrentState_unmonitored|].
  split; [by apply getLinkPose_unmonitored|].
  split; [by apply getCurrentJointValues_unmonitored|].
  by apply getCurrentVariableValues_unmonitored.
Qed.

Lemma no_monitor_yields_empty_witness :
  current_state_monitor_ unmonitoredRobot = None ∧
  ensureCurrentState unmonitoredRobot [allKnown]
    = (false, unmonitoredRobot, [ROS_ERROR unable_msg]) ∧
  getLinkPose noRotation unmonitoredRobot "hand" [allKnown]
    = Returns ([], unmonitoredRobot, [ROS_ERROR unable_msg]) ∧
  getCurrentJointValues unmonitoredRobot "elbow" [allKnown]
    = Returns ([], unmonitoredRobot, [ROS_ERROR unable_msg]) ∧
  getCurrentVariableValues unmonitoredRobot [allKnown]
    = Returns (∅, unmonitoredRobot, [ROS_ERROR unable_msg]).
Proof.
  split; [reflexivity|].
  apply (no_monitor_yields_empty noRotation unmonitoredRobot). reflexivity.
Defined.

(** ** C7: a wait that times out *)

(** C7.  When the wait of a live-state query times out, the query warns and
    goes on: it returns what the monitor holds at that point.  The mapping
    [getCurrentVariableValues] returns is the monitor's value map, so every
    variable known by then is in it with its value. *)
Theorem timeout_is_not_a_failure quat ri mon link joint arrivals mon' :
  current_state_monitor_ ri = Some mon →
  waitForCurrentState (startStateMonitor mon) 1 arrivals = (false, mon') →
  (∃ d log,
     getCurrentVariableValues ri arrivals = Returns (d, withMonitor ri mon', log) ∧
     [WaitForCurrentState 1 false; ROS_WARN not_known_msg] `suffix_of` log ∧
     d = getCurrentStateValues mon' ∧
     ∀ v x, getStateValues (getCurrentState mon') !! v = Some x → d !! v = Some x) ∧
  (isActive mon = false →
     getLinkPose quat ri link arrivals =
       Returns (servedLinkPose quat (getCurrentState mon') link, withMonitor ri mon',
                [StartStateMonitor; WaitForCurrentState 1 false;
                 ROS_WARN not_known_msg]) ∧
     getCurrentJointValues ri joint arrivals =
       Returns (servedJointValues (getCurrentState mon') joint, withMonitor ri mon',
                [StartStateMonitor; WaitForCurrentState 1 false;
                 ROS_WARN not_known_msg])).
Proof.
  intros Hmon Hw. split.
  - eexists _, _. split; [by apply getCurrentVariableValues_run|].
    split; [|split; [done|by intros v x]].
    simpl. by apply suffix_app_r.
  - intros Ha. split.
    + by rewrite (getLinkPose_run_inactive quat ri mon link arrivals false mon').
    + by rewrite (getCurrentJointValues_run_inactive ri mon joint arrivals false mon').
Qed.

Lemma timeout_is_not_a_failure_witness :
  waitForCurrentState (startStateMonitor idleMonitor) 1 [elbowKnown]
    = (false, ingest (startStateMonitor idleMonitor) elbowKnown) ∧
  (∃ d log,
     getCurrentVariableValues idleRobot [elbowKnown] =
       Returns (d, withMonitor idleRobot (ingest (startStateMonitor idleMonitor) elbowKnown),
                log) ∧
     [WaitForCurrentState 1 false; ROS_WARN not_known_msg] `suffix_of` log ∧
     d = getCurrentStateValues (ingest (startStateMonitor idleMonitor) elbowKnown) ∧
     ∀ v x, getStateValues elbowKnown !! v = Some x → d !! v = Some x) ∧
  getCurrentJointValues idleRobot "elbow" [elbowKnown] =
    Returns ([0.75]%float,
             withMonitor idleRobot (ingest (startStateMonitor idleMonitor) elbowKnown),
             [StartStateMonitor; WaitForCurrentState 1 false; ROS_WARN not_known_msg]).
Proof.
  assert (Hw : waitForCurrentState (startStateMonitor idleMonitor) 1 [elbowKnown]
               = (false, ingest (startStateMonitor idleMonitor) elbowKnown))
    by (vm_compute; reflexivity).
  destruct (timeout_is_not_a_failure noRotation idleRobot idleMonitor "hand" "elbow"
              [elbowKnown] (ingest (startStateMonitor idleMonitor) elbowKnown)
              eq_refl Hw) as [Hvars Hidle].
  destruct (Hidle eq_refl) as [_ Hjoint].
  split; [exact Hw|]. split; [exact Hvars|]. exact Hjoint.
Defined.

(** ** C8: starting a started monitor *)

Lemma constCall_inv {A} (wrap : A → PyValue) ri (r : outcome A) v ri1 log :
  constCall wrap ri r = Returns (v, ri1, log) → ri1 = ri ∧ log = [].
Proof. destruct r; simpl; [|done]. by intros [= _ <- <-]. Qed.

Lemma startStateMonitor_twice mon :
  startStateMonitor (startStateMonitor mon) = startStateMonitor mon.
Proof. apply startStateMonitor_started, startStateMonitor_active. Qed.

(** What a call makes of an active monitor: it is not started again, it
    stays active and keeps its subscriptions. *)
Lemma call_active quat ri mon c arrivals v ri1 log :
  current_state_monitor_ ri = Some mon →
  isActive mon = true →
  call quat ri c arrivals = Returns (v, ri1, log) →
  started log = false ∧
  ∃ mon1, current_state_monitor_ ri1 = Some mon1 ∧ isActive mon1 = true ∧
          subscriptions_ mon1 = subscriptions_ mon.
Proof.
  intros Hmon Ha Hcall.
  assert (Hconst : ri1 = ri ∧ log = [] →
            started log = false ∧
            ∃ mon1, current_state_monitor_ ri1 = Some mon1 ∧ isActive mon1 = true ∧
                    subscriptions_ mon1 = subscriptions_ mon).
  { intros [-> ->]. split; [done|]. by exists mon. }
  destruct c; simpl in Hcall;
    try (apply Hconst; by eapply constCall_inv).
  - rewrite (getLinkPose_run_active quat ri mon) in Hcall by done.
    simpl in Hcall. injection Hcall as _ <- <-. by apply Hconst.
  - destruct (waitForCurrentState_total (startStateMonitor mon) 1 arrivals)
      as (complete & mon' & Hw).
    rewrite (getCurrentVariableValues_run ri mon arrivals complete mon') in Hcall by done.
    simpl in Hcall. injection Hcall as _ <- <-. rewrite Ha.
    rewrite startStateMonitor_started in Hw by done.
    apply waitForCurrentState_frame in Hw as (Hs & Hn & _).
    split; [by destruct complete|].
    exists mon'. split; [done|]. split; [|done].
    unfold isActive in *. by rewrite Hs.
  - rewrite (getCurrentJointValues_run_active ri mon) in Hcall by done.
    simpl in Hcall. injection Hcall as _ <- <-. by apply Hconst.
Qed.

(** C8.  Starting a monitor that is active changes nothing, so starting
    twice is starting once.  No call on an interface whose monitor is active
    starts it again: the monitor comes out active, with the subscriptions it
    had; and the live-state queries do return. *)
Theorem startStateMonitor_idempotent quat ri mon c arrivals :
  current_state_monitor_ ri = Some mon →
  isActive mon = true →
  startStateMonitor mon = mon ∧
  (∀ mon0, startStateMonitor (startStateMonitor mon0) = startStateMonitor mon0) ∧
  (modelOnly c = false → ∃ v ri1 log, call quat ri c arrivals = Returns (v, ri1, log)) ∧
  ∀ v ri1 log,
    call quat ri c arrivals = Returns (v, ri1, log) →
    started log = false ∧
    ∃ mon1, current_state_monitor_ ri1 = Some mon1 ∧ isActive mon1 = true ∧
            subscriptions_ mon1 = subscriptions_ mon.
Proof.
  intros Hmon Ha.
  split; [by apply startStateMonitor_started|].
  split; [apply startStateMonitor_twice|].
  split.
  - destruct c; simpl; try done; intros _.
    + rewrite (getLinkPose_run_active quat ri mon) by done. simpl. eauto.
    + destruct (waitForCurrentState_total (startStateMonitor mon) 1 arrivals)
        as (complete & mon' & Hw).
      rewrite (getCurrentVariableValues_run ri mon arrivals complete mon') by done.
      simpl. eauto.
    + rewrite (getCurrentJointValues_run_active ri mon) by done. simpl. eauto.
  - intros v ri1 log. by apply call_active.
Qed.

Lemma startStateMonitor_idempotent_witness :
  startStateMonitor activeMonitor = activeMonitor ∧
  ∃ v ri1 log,
    call noRotation activeRobot get_current_variable_values [allKnown]
      = Returns (v, ri1, log) ∧
    started log = false ∧
    ∃ mon1, current_state_monitor_ ri1 = Some mon1 ∧ isActive mon1 = true ∧
            subscriptions_ mon1 = 1.
Proof.
  destruct (startStateMonitor_idempotent noRotation activeRobot activeMonitor
              get_current_variable_values [allKnown] eq_refl eq_refl)
    as (Hstart & _ & Hreturns & Hkeeps).
  split; [exact Hstart|].
  destruct (Hreturns eq_refl) as (v & ri1 & log & Hcall).
  exists v, ri1, log. split; [exact Hcall|]. exact (Hkeeps v ri1 log Hcall).
Defined.

(** The first start is the one that subscribes. *)
Example startStateMonitor_subscribes_once :
  subscriptions_ idleMonitor = 0 ∧
  subscriptions_ (startStateMonitor idleMonitor) = 1 ∧
  subscriptions_ (startStateMonitor (startStateMonitor idleMonitor)) = 1.
Proof. repeat split. Qed.

(** ** C9: joint values against variable values *)

(** C9.  After [getCurrentVariableValues] has returned the mapping [d], a
    call of [getCurrentJointValues] on the interface it left neither starts
    the monitor nor waits, so it reads the same state; and when the variables
    of that state are distinct, each value it returns is the value [d] has
    for the joint's variable at the same position. *)
Theorem joint_values_agree_with_variable_values ri name arrivals1 arrivals2 d ri1 log1 :
  getCurrentVariableValues ri arrivals1 = Returns (d, ri1, log1) →
  (∀ mon1, current_state_monitor_ ri1 = Some mon1 →
           distinctVariables (getCurrentState mon1)) →
  ∃ l log2,
    getCurrentJointValues ri1 name arrivals2 = Returns (l, ri1, log2) ∧
    started log2 = false ∧ waited log2 = false ∧
    ∀ i x, l !! i = Some x →
      ∃ mon1 js v,
        current_state_monitor_ ri1 = Some mon1 ∧
        getJointState (getCurrentState mon1) name = Some js ∧
        l = getVariableValues js ∧
        getVariableNames (joint_state_model_ js) !! i = Some v ∧
        d !! v = Some x.
Proof.
  intros Hvars Hdistinct.
  destruct (current_state_monitor_ ri) as [mon|] eqn:Hmon.
  - destruct (waitForCurrentState_total (startStateMonitor mon) 1 arrivals1)
      as (complete & mon' & Hw).
    rewrite (getCurrentVariableValues_run ri mon arrivals1 complete mon') in Hvars by done.
    injection Hvars as <- <- <-.
    assert (Ha : isActive mon' = true).
    { apply waitForCurrentState_frame in Hw as (Hs & _).
      unfold isActive. rewrite Hs. apply startStateMonitor_active. }
    eexists _, _. split.
    { by apply (getCurrentJointValues_run_active (withMonitor ri mon') mon'). }
    split; [done|]. split; [done|].
    intros i x Hx. unfold servedJointValues in *.
    destruct (getJointState (getCurrentState mon') name) as [js|] eqn:Hjs; [|done].
    specialize (Hdistinct mon' eq_refl).
    assert (Hlen : length (getVariableNames (joint_state_model_ js))
                   = length (getVariableValues js)).
    { destruct Hdistinct as [_ Hall]. by apply (map_Forall_lookup_1 _ _ _ _ Hall Hjs). }
    destruct (lookup_lt_is_Some_2 (getVariableNames (joint_state_model_ js)) i)
      as [v Hv].
    { rewrite Hlen. by eapply lookup_lt_Some. }
    exists mon', js, v. repeat split; try done.
    by apply (getStateValues_lookup _ name js i).
  - rewrite getCurrentVariableValues_unmonitored in Hvars by done.
    injection Hvars as <- <- <-.
    eexists _, _. split; [by apply getCurrentJointValues_unmonitored|].
    split; [done|]. split; [done|]. by intros i x Hx.
Qed.

Lemma distinctVariables_allKnown : distinctVariables allKnown.
Proof.
  split.
  - apply (bool_decide_unpack _). vm_compute. reflexivity.
  - apply (bool_decide_unpack _). vm_compute. reflexivity.
Defined.

Lemma joint_values_agree_with_variable_values_witness :
  getCurrentVariableValues idleRobot [allKnown]
    = Returns (getStateValues allKnown,
               withMonitor idleRobot (ingest (startStateMonitor idleMonitor) allKnown),
               [StartStateMonitor; WaitForCurrentState 1 true]) ∧
  ∃ l log2,
    getCurrentJointValues
      (withMonitor idleRobot (ingest (startStateMonitor idleMonitor) allKnown))
      "wrist" [nothingKnown]
    = Returns (l, withMonitor idleRobot (ingest (startStateMonitor idleMonitor) allKnown),
               log2) ∧
    started log2 = false ∧ waited log2 = false ∧
    ∀ i x, l !! i = Some x →
      ∃ mon1 js v,
        current_state_monitor_
          (withMonitor idleRobot (ingest (startStateMonitor idleMonitor) allKnown))
        = Some mon1 ∧
        getJointState (getCurrentState mon1) "wrist" = Some js ∧
        l = getVariableValues js ∧
        getVariableNames (joint_state_model_ js) !! i = Some v ∧
        getStateValues allKnown !! v = Some x.
Proof.
  assert (Hvars : getCurrentVariableValues idleRobot [allKnown]
    = Returns (getStateValues allKnown,
               withMonitor idleRobot (ingest (startStateMonitor idleMonitor) allKnown),
               [StartStateMonitor; WaitForCurrentState 1 true])).
  { apply (getCurrentVariableValues_run idleRobot idleMonitor [allKnown] true
             (ingest (startStateMonitor idleMonitor) allKnown)); [reflexivity|].
    vm_compute. reflexivity. }
  split; [exact Hvars|].
  apply (joint_values_agree_with_variable_values idleRobot "wrist" [allKnown]
           [nothingKnown] _ _ _ Hvars).
  intros mon1 [= <-]. exact distinctVariables_allKnown.
Defined.

Example joint_values_after_variable_values :
  getCurrentJointValues
    (withMonitor idleRobot (ingest (startStateMonitor idleMonitor) allKnown))
    "wrist" [nothingKnown]
  = Returns ([0.125]%float,
             withMonitor idleRobot (ingest (startStateMonitor idleMonitor) allKnown), []) ∧
  getStateValues allKnown !! "wrist" = Some 0.125%float.
Proof. split; vm_compute; reflexivity. Qed.

(** ** C10: the queries on the model *)

(** The loop over the group names stops short only at a name that the model
    does not resolve. *)
Lemma findMinContainingGroup_loop_null m joint_name gnames :
  ∀ group,
    findMinContainingGroup_loop m joint_name gnames group = NullDereference →
    ∃ gname, gname ∈ gnames ∧ getJointModelGroup m gname = None.
Proof.
  induction gnames as [|gname gnames IH]; intros group Hloop; simpl in Hloop; [done|].
  destruct (getJointModelGroup m gname) as [jmg|] eqn:Hjmg.
  - apply IH in Hloop as (g & Hg & Hnone). exists g. split; [by right|done].
  - exists gname. split; [by left|done].
Qed.

Lemma call_modelOnly quat ri c arrivals :
  modelOnly c = true →
  match call quat ri c arrivals with
  | Returns (_, ri1, log) => ri1 = ri ∧ log = []
  | NullDereference => nullInModel ri
  end.
Proof.
  intros Hc. unfold nullInModel.
  destruct c; try discriminate Hc; simpl;
    unfold getJointNames, getGroupNames, getLinkNames, getJointLimits,
      getPlanningFrame, findMinContainingGroup;
    destruct (robot_model_ ri) as [m|] eqn:Hm; simpl; auto.
  - by destruct (getJointModel m name).
  - destruct (findMinContainingGroup_loop m joint_name (getJointModelGroupNames m) None)
      as [group|] eqn:Hloop; simpl; [done|].
    apply findMinContainingGroup_loop_null in Hloop as (gname & Hin & Hnone).
    right. by exists m, gname.
Qed.

(** Run on the object, the loop over the group names leaves the object and
    the log alone, and stops short only at a name the model does not
    resolve. *)
Lemma OnObject_loop_frame m joint_name gnames :
  ∀ group ri,
    match OnObject.findMinContainingGroup_loop m joint_name gnames group ri with
    | Returns (_, ri1, log) => ri1 = ri ∧ log = []
    | NullDereference => ∃ gname, gname ∈ gnames ∧ getJointModelGroup m gname = None
    end.
Proof.
  induction gnames as [|gname gnames IH]; intros group ri; simpl; [done|].
  unfold andThen, deref.
  destruct (getJointModelGroup m gname) as [jmg|] eqn:Hjmg.
  - match goal with |- context [OnObject.findMinContainingGroup_loop _ _ _ ?g ri] =>
      specialize (IH g ri);
      destruct (OnObject.findMinContainingGroup_loop m joint_name gnames g ri)
        as [[[r ri1] log]|]
    end.
    + by destruct IH as [-> ->].
    + destruct IH as (g' & Hin & Hnone). exists g'. split; [by right|done].
  - exists gname. split; [by left|done].
Qed.

(** Each of the six queries on the model, run on the object: its body calls
    through the model handle only, so the object and the log come out as
    they went in. *)
Lemma OnObject_call_modelOnly quat ri c arrivals :
  modelOnly c = true →
  match OnObject.call quat c arrivals ri with
  | Returns (_, ri1, log) => ri1 = ri ∧ log = []
  | NullDereference => nullInModel ri
  end.
Proof.
  intros Hc. unfold nullInModel.
  destruct c; try discriminate Hc; simpl;
    unfold OnObject.getJointNames, OnObject.getGroupNames, OnObject.getLinkNames,
      OnObject.getJointLimits, OnObject.getPlanningFrame,
      OnObject.findMinContainingGroup, andThen, derefModel, deref, result;
    destruct (robot_model_ ri) as [m|] eqn:Hm; simpl; auto.
  - by destruct (getJointModel m name).
  - pose proof (OnObject_loop_frame m joint_name (getJointModelGroupNames m) None ri)
      as Hloop.
    destruct (OnObject.findMinContainingGroup_loop m joint_name
                (getJointModelGroupNames m) None ri) as [[[group ri1] log]|].
    + by destruct Hloop as [-> ->].
    + destruct Hloop as (gname & Hin & Hnone). right. by exists m, gname.
Qed.

(** The two readings of the member functions agree: run on the object, a
    call does what [call] says. *)
Lemma OnObject_loop_agrees m joint_name gnames :
  ∀ group ri,
    OnObject.findMinContainingGroup_loop m joint_name gnames group ri =
      match findMinContainingGroup_loop m joint_name gnames group with
      | Returns r => Returns (r, ri, [])
      | NullDereference => NullDereference
      end.
Proof.
  induction gnames as [|gname gnames IH]; intros group ri; simpl; [done|].
  unfold andThen, deref.
  destruct (getJointModelGroup m gname) as [jmg|]; [|done].
  rewrite IH. by destruct (findMinContainingGroup_loop _ _ _ _).
Qed.

Lemma OnObject_call_agrees quat c arrivals ri :
  OnObject.call quat c arrivals ri = call quat ri c arrivals.
Proof.
  destruct c; simpl;
    unfold OnObject.getJointNames, OnObject.getGroupNames, OnObject.getLinkNames,
      OnObject.getJointLimits, OnObject.getPlanningFrame,
      OnObject.findMinContainingGroup, getJointNames, getGroupNames, getLinkNames,
      getJointLimits, getPlanningFrame, findMinContainingGroup,
      andThen, derefModel, deref, result, constCall, mutCall.
  - by destruct (robot_model_ ri).
  - by destruct (robot_model_ ri).
  - by destruct (robot_model_ ri).
  - destruct (robot_model_ ri) as [m|]; [|done]. by destruct (getJointModel m name).
  - destruct (getLinkPose quat ri name arrivals) as [[[l ri1] log]|]; [|done].
    by rewrite app_nil_r.
  - by destruct (robot_model_ ri).
  - destruct (getCurrentVariableValues ri arrivals) as [[[d ri1] log]|]; [|done].
    by rewrite app_nil_r.
  - destruct (getCurrentJointValues ri name arrivals) as [[[l ri1] log]|]; [|done].
    by rewrite app_nil_r.
  - destruct (robot_model_ ri) as [m|]; [|done].
    rewrite OnObject_loop_agrees.
    by destruct (findMinContainingGroup_loop _ _ _ _).
Qed.

Lemma OnObject_calls_agree quat cs :
  ∀ ri, OnObject.calls quat cs ri = calls quat ri cs.
Proof.
  induction cs as [|[c arrivals] cs IH]; intros ri; simpl; [done|].
  unfold andThen. rewrite OnObject_call_agrees.
  destruct (call quat ri c arrivals) as [[[v ri1] log1]|]; [|done].
  rewrite IH.
  destruct (calls quat ri1 cs) as [[[vs ri2] log2]|]; [|done].
  unfold result. by rewrite app_nil_r.
Qed.

(** C10.  The six queries on the model are run on the object like every
    member function, free by their type to start the monitor, wait on it or
    log.  Their bodies do none of it: any sequence of them, in any order and
    with repetitions, leaves the interface as it was, the monitor with its
    activity flag and its monitored state included, and logs nothing.  Such a
    sequence stops short only on a null model handle or on a declared group
    name that the model does not resolve.  Run on the object, the calls do
    what the binding surface says. *)
Theorem model_queries_leave_state quat ri cs :
  Forall (λ c : Call * list RobotState, modelOnly c.1 = true) cs →
  OnObject.calls quat cs ri = calls quat ri cs ∧
  match OnObject.calls quat cs ri with
  | Returns (vs, ri1, log) => ri1 = ri ∧ log = [] ∧ length vs = length cs
  | NullDereference => nullInModel ri
  end.
Proof.
  intros Hcs. split; [apply OnObject_calls_agree|].
  induction Hcs as [|[c arrivals] cs Hc _ IH]; simpl; [done|].
  unfold andThen at 1.
  pose proof (OnObject_call_modelOnly quat ri c arrivals Hc) as Hcall.
  destruct (OnObject.call quat c arrivals ri) as [[[v ri1] log1]|]; [|done].
  destruct Hcall as [-> ->].
  unfold andThen.
  destruct (OnObject.calls quat cs ri) as [[[vs ri2] log2]|]; [|done].
  destruct IH as (-> & -> & Hlen). simpl. by rewrite Hlen.
Qed.

Lemma model_queries_leave_state_witness :
  Forall (λ c : Call * list RobotState, modelOnly c.1 = true) modelQueries ∧
  OnObject.calls noRotation modelQueries idleRobot = calls noRotation idleRobot modelQueries ∧
  match OnObject.calls noRotation modelQueries idleRobot with
  | Returns (vs, ri1, log) => ri1 = idleRobot ∧ log = [] ∧ length vs = length modelQueries
  | NullDereference => nullInModel idleRobot
  end.
Proof.
  assert (H : Forall (λ c : Call * list RobotState, modelOnly c.1 = true) modelQueries)
    by (repeat constructor).
  split; [exact H|].
  exact (model_queries_leave_state noRotation idleRobot modelQueries H).
Defined.

(** A live-state query in the run is seen at once: the monitor is started
    and the log is not empty. *)
Example live_query_among_model_queries :
  ∃ vs ri1,
    OnObject.calls noRotation
      [(get_joint_names, []); (get_link_pose "hand", []); (get_group_names, [])]
      idleRobot
    = Returns (vs, ri1,
               [StartStateMonitor; WaitForCurrentState 1 false; ROS_WARN not_known_msg]) ∧
    current_state_monitor_ ri1 = Some (startStateMonitor idleMonitor).
Proof. eexists _, _. split; vm_compute; reflexivity. Qed.

Example model_queries_on_idle_monitor :
  calls noRotation idleRobot modelQueries =
    Returns ([PyStrings ["shoulder"; "elbow"; "wrist"]; PyString (Some "lower");
              PyLimits [[-0.5; 0.5]%float]; PyString (Some "base");
              PyStrings ["shoulder"; "elbow"; "wrist"];
              PyStrings ["arm"; "lower"; "upper"];
              PyStrings ["base"; "upper_arm"; "forearm"; "hand"]],
             idleRobot, []).
Proof. vm_compute. reflexivity. Qed.

(** ** What a call, and a run of calls, does to the interface and the log *)

Lemma occurrences_app p log1 log2 :
  occurrences p (log1 ++ log2) = occurrences p log1 + occurrences p log2.
Proof. induction log1 as [|e log1 IH]; simpl; [done|]. rewrite IH. lia. Qed.

Lemma withMonitor_monitor ri mon :
  current_state_monitor_ ri = Some mon → withMonitor ri mon = ri.
Proof. destruct ri as [m o]. simpl. by intros ->. Qed.

(** One call: the model handle stays, a monitor stays wired or absent and
    keeps its model, and the log has one start when a live-state query met an
    inactive monitor, one error when it met none, and a warning for each
    wait that timed out. *)
Lemma call_step quat ri c arrivals v ri1 log :
  call quat ri c arrivals = Returns (v, ri1, log) →
  robot_model_ ri1 = robot_model_ ri ∧
  occurrences isWarning log = occurrences isTimedOutWait log ∧
  Forall oneSecondWait log ∧
  match current_state_monitor_ ri with
  | None =>
    current_state_monitor_ ri1 = None ∧
    occurrences isStart log = 0 ∧
    occurrences isError log = (if modelOnly c then 0 else 1)
  | Some mon =>
    ∃ mon1, current_state_monitor_ ri1 = Some mon1 ∧
            monitored_model_ mon1 = monitored_model_ mon ∧
            isActive mon1 = (isActive mon || negb (modelOnly c)) ∧
            occurrences isStart log = (if isActive mon || modelOnly c then 0 else 1) ∧
            subscriptions_ mon1 = subscriptions_ mon + occurrences isStart log ∧
            occurrences isError log = 0
  end.
Proof.
  intros Hcall.
  assert (Hconst : modelOnly c = true → ri1 = ri ∧ log = [] →
    robot_model_ ri1 = robot_model_ ri ∧
    occurrences isWarning log = occurrences isTimedOutWait log ∧
    Forall oneSecondWait log ∧
    match current_state_monitor_ ri with
    | None =>
      current_state_monitor_ ri1 = None ∧
      occurrences isStart log = 0 ∧
      occurrences isError log = (if modelOnly c then 0 else 1)
    | Some mon =>
      ∃ mon1, current_state_monitor_ ri1 = Some mon1 ∧
              monitored_model_ mon1 = monitored_model_ mon ∧
              isActive mon1 = (isActive mon || negb (modelOnly c)) ∧
              occurrences isStart log = (if isActive mon || modelOnly c then 0 else 1) ∧
              subscriptions_ mon1 = subscriptions_ mon + occurrences isStart log ∧
              occurrences isError log = 0
    end).
  { intros Hc [-> ->]. rewrite Hc. simpl.
    split; [done|]. split; [done|]. split; [constructor|].
    destruct (current_state_monitor_ ri) as [mon|]; [|done].
    exists mon. rewrite !orb_false_r, orb_true_r. repeat split; try done; lia. }
  assert (Hlive : ∀ mon complete mon',
    current_state_monitor_ ri = Some mon →
    waitForCurrentState (startStateMonitor mon) 1 arrivals = (complete, mon') →
    isActive mon' = true ∧
    monitored_model_ mon' = monitored_model_ mon ∧
    subscriptions_ mon' = subscriptions_ mon + (if isActive mon then 0 else 1)).
  { intros mon complete mon' Hmon Hw.
    apply waitForCurrentState_frame in Hw as (Hs & Hn & Hm & _).
    split; [unfold isActive; rewrite Hs; apply startStateMonitor_active|].
    rewrite Hm, Hn. unfold startStateMonitor, isActive.
    destruct (state_monitor_started_ mon); simpl; split; try done; lia. }
  destruct c; simpl in Hcall;
    try (apply Hconst; [done|by eapply constCall_inv]).
  - (* get_link_pose *)
    destruct (current_state_monitor_ ri) as [mon|] eqn:Hmon.
    + destruct (isActive mon) eqn:Ha.
      * rewrite (getLinkPose_run_active quat ri mon) in Hcall by done.
        simpl in Hcall. injection Hcall as _ <- <-. simpl.
        split; [done|]. split; [done|]. split; [constructor|].
        exists mon. rewrite Hmon, Ha. repeat split; try done; lia.
      * destruct (waitForCurrentState_total (startStateMonitor mon) 1 arrivals)
          as (complete & mon' & Hw).
        rewrite (getLinkPose_run_inactive quat ri mon name arrivals complete mon')
          in Hcall by done.
        simpl in Hcall. injection Hcall as _ <- <-.
        destruct (Hlive mon complete mon' eq_refl Hw) as (Ha' & Hm & Hn).
        rewrite Ha in Hn.
        split; [done|]. split; [by destruct complete|].
        split; [destruct complete; repeat constructor|].
        exists mon'. simpl. rewrite Ha'.
        repeat split; try done; by destruct complete.
    + rewrite getLinkPose_unmonitored in Hcall by done.
      simpl in Hcall. injection Hcall as _ <- <-.
      rewrite Hmon. repeat split; try done. repeat constructor.
  - (* get_current_variable_values *)
    destruct (current_state_monitor_ ri) as [mon|] eqn:Hmon.
    + destruct (waitForCurrentState_total (startStateMonitor mon) 1 arrivals)
        as (complete & mon' & Hw).
      rewrite (getCurrentVariableValues_run ri mon arrivals complete mon') in Hcall by done.
      simpl in Hcall. injection Hcall as _ <- <-.
      destruct (Hlive mon complete mon' eq_refl Hw) as (Ha' & Hm & Hn).
      split; [done|].
      split; [by destruct (isActive mon), complete|].
      split; [destruct (isActive mon), complete; repeat constructor|].
      exists mon'. simpl. rewrite Ha', orb_true_r, orb_false_r.
      destruct (isActive mon), complete; simpl in *; repeat split; try done; lia.
    + rewrite getCurrentVariableValues_unmonitored in Hcall by done.
      simpl in Hcall. injection Hcall as _ <- <-.
      rewrite Hmon. repeat split; try done. repeat constructor.
  - (* get_current_joint_values *)
    destruct (current_state_monitor_ ri) as [mon|] eqn:Hmon.
    + destruct (isActive mon) eqn:Ha.
      * rewrite (getCurrentJointValues_run_active ri mon) in Hcall by done.
        simpl in Hcall. injection Hcall as _ <- <-. simpl.
        split; [done|]. split; [done|]. split; [constructor|].
        exists mon. rewrite Hmon, Ha. repeat split; try done; lia.
      * destruct (waitForCurrentState_total (startStateMonitor mon) 1 arrivals)
          as (complete & mon' & Hw).
        rewrite (getCurrentJointValues_run_inactive ri mon name arrivals complete mon')
          in Hcall by done.
        simpl in Hcall. injection Hcall as _ <- <-.
        destruct (Hlive mon complete mon' eq_refl Hw) as (Ha' & Hm & Hn).
        rewrite Ha in Hn.
        split; [done|]. split; [by destruct complete|].
        split; [destruct complete; repeat constructor|].
        exists mon'. simpl. rewrite Ha'.
        repeat split; try done; by destruct complete.
    + rewrite getCurrentJointValues_unmonitored in Hcall by done.
      simpl in Hcall. injection Hcall as _ <- <-.
      rewrite Hmon. repeat split; try done. repeat constructor.
Qed.

(** A run of calls: the facts of [call_step], added up along the run. *)
Lemma calls_step quat cs :
  ∀ ri vs ri1 log,
    calls quat ri cs = Returns (vs, ri1, log) →
    length vs = length cs ∧
    robot_model_ ri1 = robot_model_ ri ∧
    occurrences isWarning log = occurrences isTimedOutWait log ∧
    Forall oneSecondWait log ∧
    match current_state_monitor_ ri with
    | None =>
      current_state_monitor_ ri1 = None ∧
      occurrences isStart log = 0 ∧
      occurrences isError log = liveCalls cs
    | Some mon =>
      ∃ mon1, current_state_monitor_ ri1 = Some mon1 ∧
              monitored_model_ mon1 = monitored_model_ mon ∧
              isActive mon1 = (isActive mon || negb (liveCalls cs =? 0)%nat) ∧
              occurrences isStart log
                = (if isActive mon || (liveCalls cs =? 0)%nat then 0 else 1) ∧
              subscriptions_ mon1 = subscriptions_ mon + occurrences isStart log ∧
              occurrences isError log = 0
    end.
Proof.
  induction cs as [|[c arrivals] cs IH]; intros ri vs ri1 log Hrun; simpl in Hrun.
  - injection Hrun as <- <- <-. simpl.
    split; [done|]. split; [done|]. split; [done|]. split; [constructor|].
    destruct (current_state_monitor_ ri) as [mon|]; [|done].
    exists mon. rewrite !orb_false_r, orb_true_r. repeat split; try done; lia.
  - destruct (call quat ri c arrivals) as [[[v ri0] log0]|] eqn:Hcall; [|done].
    destruct (calls quat ri0 cs) as [[[vs0 ri2] log2]|] eqn:Hrest; [|done].
    injection Hrun as <- <- <-.
    apply call_step in Hcall as (Hm0 & Hw0 & Ht0 & Hmon0).
    apply IH in Hrest as (Hlen & Hm2 & Hw2 & Ht2 & Hmon2).
    split; [simpl; by rewrite Hlen|].
    split; [by rewrite Hm2|].
    split; [rewrite !occurrences_app; lia|].
    split; [by apply Forall_app|].
    rewrite !occurrences_app. simpl.
    destruct (current_state_monitor_ ri) as [mon|].
    + destruct Hmon0 as (mon0 & Hmon0 & Hmodel0 & Ha0 & Hs0 & Hn0 & He0).
      rewrite Hmon0 in Hmon2.
      destruct Hmon2 as (mon2 & Hmon2 & Hmodel2 & Ha2 & Hs2 & Hn2 & He2).
      exists mon2. split; [done|]. split; [congruence|].
      rewrite Ha2, Hn2, Hs2, He2, Hn0, Hs0, He0, Ha0.
      destruct (isActive mon), (modelOnly c), (liveCalls cs) as [|n];
        simpl; repeat split; try done; lia.
    + destruct Hmon0 as (Hmon0 & Hs0 & He0). rewrite Hmon0 in Hmon2.
      destruct Hmon2 as (Hmon2 & Hs2 & He2).
      rewrite Hs0, Hs2, He0, He2. by destruct (modelOnly c).
Qed.

(** ** X1: the handles of the interface *)

(** X1.  No run of calls changes the model handle, wires a monitor that was
    absent or drops one that was wired; a wired monitor keeps its model,
    stays active if it was, and is active after the run as soon as the run
    held a live-state query.  The run answers every call. *)
Theorem calls_keep_handles quat ri cs vs ri1 log :
  calls quat ri cs = Returns (vs, ri1, log) →
  length vs = length cs ∧
  robot_model_ ri1 = robot_model_ ri ∧
  match current_state_monitor_ ri with
  | None => current_state_monitor_ ri1 = None
  | Some mon =>
    ∃ mon1, current_state_monitor_ ri1 = Some mon1 ∧
            monitored_model_ mon1 = monitored_model_ mon ∧
            (isActive mon = true → isActive mon1 = true) ∧
            (0 < liveCalls cs → isActive mon1 = true)
  end.
Proof.
  intros Hrun. apply calls_step in Hrun as (Hlen & Hm & _ & _ & Hmon).
  split; [done|]. split; [done|].
  destruct (current_state_monitor_ ri) as [mon|]; [|by destruct Hmon].
  destruct Hmon as (mon1 & Hmon1 & Hmodel & Ha & _).
  exists mon1. split; [done|]. split; [done|]. rewrite Ha. split.
  - by intros ->.
  - intros Hlive. destruct (liveCalls cs); [lia|]. simpl. by rewrite orb_true_r.
Qed.

Lemma calls_keep_handles_witness :
  ∃ vs ri1 log,
    calls noRotation idleRobot mixedQueries = Returns (vs, ri1, log) ∧
    length vs = 6 ∧
    robot_model_ ri1 = Some arm ∧
    ∃ mon1, current_state_monitor_ ri1 = Some mon1 ∧
            monitored_model_ mon1 = arm ∧
            (isActive idleMonitor = true → isActive mon1 = true) ∧
            (0 < liveCalls mixedQueries → isActive mon1 = true).
Proof.
  destruct (calls noRotation idleRobot mixedQueries) as [[[vs ri1] log]|] eqn:Hrun;
    [|vm_compute in Hrun; discriminate Hrun].
  exists vs, ri1, log. split; [reflexivity|].
  exact (calls_keep_handles noRotation idleRobot mixedQueries vs ri1 log Hrun).
Defined.

(** ** X2: the monitor is started at most once *)

(** X2.  In the log of any run of calls the monitor is started at most
    once: once when the monitor was wired but not active and the run holds a
    live-state query, and not at all otherwise.  The monitor ends the run with
    one subscription more for that start, and none more without it. *)
Theorem calls_start_at_most_once quat ri cs vs ri1 log :
  calls quat ri cs = Returns (vs, ri1, log) →
  (occurrences isStart log ≤ 1)%nat ∧
  match current_state_monitor_ ri with
  | None => occurrences isStart log = 0
  | Some mon =>
    occurrences isStart log = (if isActive mon || (liveCalls cs =? 0)%nat then 0 else 1) ∧
    ∃ mon1, current_state_monitor_ ri1 = Some mon1 ∧
            subscriptions_ mon1 = subscriptions_ mon + occurrences isStart log
  end.
Proof.
  intros Hrun. apply calls_step in Hrun as (_ & _ & _ & _ & Hmon).
  destruct (current_state_monitor_ ri) as [mon|].
  - destruct Hmon as (mon1 & Hmon1 & _ & _ & Hs & Hn & _).
    split; [rewrite Hs; destruct (_ || _); lia|].
    split; [done|]. by exists mon1.
  - destruct Hmon as (_ & -> & _). split; [lia|done].
Qed.

Lemma calls_start_at_most_once_witness :
  ∃ vs ri1 log,
    calls noRotation idleRobot mixedQueries = Returns (vs, ri1, log) ∧
    (occurrences isStart log ≤ 1)%nat ∧
    occurrences isStart log = 1 ∧
    ∃ mon1, current_state_monitor_ ri1 = Some mon1 ∧
            subscriptions_ mon1 = 0 + occurrences isStart log.
Proof.
  destruct (calls noRotation idleRobot mixedQueries) as [[[vs ri1] log]|] eqn:Hrun;
    [|vm_compute in Hrun; discriminate Hrun].
  exists vs, ri1, log. split; [reflexivity|].
  exact (calls_start_at_most_once noRotation idleRobot mixedQueries vs ri1 log Hrun).
Defined.

(** ** X3: warnings and timed-out waits *)

(** X3.  In the log of any run of calls there are as many warnings as waits
    that timed out, and every wait was given one second. *)
Theorem calls_warn_per_timeout quat ri cs vs ri1 log :
  calls quat ri cs = Returns (vs, ri1, log) →
  occurrences isWarning log = occurrences isTimedOutWait log ∧
  Forall oneSecondWait log.
Proof. intros Hrun. by apply calls_step in Hrun as (_ & _ & Hw & Ht & _). Qed.

Lemma calls_warn_per_timeout_witness :
  ∃ vs ri1 log,
    calls noRotation idleRobot mixedQueries = Returns (vs, ri1, log) ∧
    occurrences isWarning log = occurrences isTimedOutWait log ∧
    Forall oneSecondWait log.
Proof.
  destruct (calls noRotation idleRobot mixedQueries) as [[[vs ri1] log]|] eqn:Hrun;
    [|vm_compute in Hrun; discriminate Hrun].
  exists vs, ri1, log. split; [reflexivity|].
  exact (calls_warn_per_timeout noRotation idleRobot mixedQueries vs ri1 log Hrun).
Defined.

Example mixedQueries_log :
  ∃ vs ri1,
    calls noRotation idleRobot mixedQueries =
      Returns (vs, ri1,
               [StartStateMonitor;
                WaitForCurrentState 1 false; ROS_WARN not_known_msg;
                WaitForCurrentState 1 false; ROS_WARN not_known_msg;
                WaitForCurrentState 1 true]).
Proof. eexists _, _. vm_compute. reflexivity. Qed.

(** ** X4: errors and the missing monitor *)

(** X4.  A run of calls on an interface without a monitor logs one error
    for each live-state query in it and nothing else of the kind; with a
    monitor wired no call logs an error. *)
Theorem calls_error_per_live_call quat ri cs vs ri1 log :
  calls quat ri cs = Returns (vs, ri1, log) →
  occurrences isError log =
    match current_state_monitor_ ri with
    | None => liveCalls cs
    | Some _ => 0
    end.
Proof.
  intros Hrun. apply calls_step in Hrun as (_ & _ & _ & _ & Hmon).
  destruct (current_state_monitor_ ri) as [mon|].
  - by destruct Hmon as (mon1 & _ & _ & _ & _ & _ & He).
  - by destruct Hmon as (_ & _ & He).
Qed.

Lemma calls_error_per_live_call_witness :
  ∃ vs ri1 log,
    calls noRotation unmonitoredRobot mixedQueries = Returns (vs, ri1, log) ∧
    occurrences isError log = liveCalls mixedQueries.
Proof.
  destruct (calls noRotation unmonitoredRobot mixedQueries) as [[[vs ri1] log]|] eqn:Hrun;
    [|vm_compute in Hrun; discriminate Hrun].
  exists vs, ri1, log. split; [reflexivity|].
  exact (calls_error_per_live_call noRotation unmonitoredRobot mixedQueries vs ri1 log Hrun).
Defined.

(** ** X5: reads on an active monitor *)

Lemma call_readsThroughEnsure quat ri mon c arrivals :
  current_state_monitor_ ri = Some mon →
  isActive mon = true →
  readsThroughEnsure c = true →
  match call quat ri c arrivals with
  | Returns (_, ri1, log) => ri1 = ri ∧ log = []
  | NullDereference => nullInModel ri
  end.
Proof.
  intros Hmon Ha Hc.
  destruct (modelOnly c) eqn:Hmodel; [by apply call_modelOnly|].
  destruct c; try discriminate Hmodel; try discriminate Hc; simpl.
  - by rewrite (getLinkPose_run_active quat ri mon).
  - by rewrite (getCurrentJointValues_run_active ri mon).
Qed.

(** X5.  Once the monitor is active, any run of calls other than
    [get_current_variable_values] (link poses, joint values and the queries on
    the model, in any order) leaves the interface as it was and logs nothing:
    no start, no wait, no warning, whatever would have arrived meanwhile.
    Such a run stops short only where a query on the model meets a null
    pointer. *)
Theorem active_reads_leave_state quat ri mon cs :
  current_state_monitor_ ri = Some mon →
  isActive mon = true →
  Forall (λ c : Call * list RobotState, readsThroughEnsure c.1 = true) cs →
  match calls quat ri cs with
  | Returns (vs, ri1, log) => ri1 = ri ∧ log = [] ∧ length vs = length cs
  | NullDereference => nullInModel ri
  end.
Proof.
  intros Hmon Ha. induction 1 as [|[c arrivals] cs Hc _ IH]; simpl; [done|].
  pose proof (call_readsThroughEnsure quat ri mon c arrivals Hmon Ha Hc) as Hcall.
  destruct (call quat ri c arrivals) as [[[v ri1] log1]|]; [|done].
  destruct Hcall as [-> ->].
  destruct (calls quat ri cs) as [[[vs ri2] log2]|]; [|done].
  destruct IH as (-> & -> & Hlen). simpl. by rewrite Hlen.
Qed.

Lemma active_reads_leave_state_witness :
  Forall (λ c : Call * list RobotState, readsThroughEnsure c.1 = true) activeReads ∧
  match calls noRotation activeRobot activeReads with
  | Returns (vs, ri1, log) => ri1 = activeRobot ∧ log = [] ∧ length vs = length activeReads
  | NullDereference => nullInModel activeRobot
  end.
Proof.
  assert (H : Forall (λ c : Call * list RobotState, readsThroughEnsure c.1 = true)
                activeReads) by (repeat constructor).
  split; [exact H|].
  exact (active_reads_leave_state noRotation activeRobot activeMonitor activeReads
           eq_refl eq_refl H).
Defined.

(** ** X6: what [ensureCurrentState] ensures *)

(** X6.  [ensureCurrentState] answers true exactly when a monitor is wired,
    whether or not the wait it made timed out, and then the interface it
    leaves has a monitor that is active; when it answers false the interface
    is as it was, without a monitor.  The model handle is never touched. *)
Theorem ensureCurrentState_ensures ri arrivals ok ri1 log :
  ensureCurrentState ri arrivals = (ok, ri1, log) →
  robot_model_ ri1 = robot_model_ ri ∧
  (ok = true ↔ is_Some (current_state_monitor_ ri)) ∧
  (ok = true → ∃ mon1, current_state_monitor_ ri1 = Some mon1 ∧ isActive mon1 = true) ∧
  (ok = false → ri1 = ri ∧ current_state_monitor_ ri = None ∧
                log = [ROS_ERROR unable_msg]).
Proof.
  intros He. pose proof He as Hinv.
  apply ensureCurrentState_inv in Hinv as [Hm Hinv].
  split; [done|].
  destruct (current_state_monitor_ ri) as [mon|] eqn:Hmon.
  - destruct Hinv as (-> & mon1 & Hmon1 & Ha & _).
    split; [split; eauto|]. split; [eauto|done].
  - destruct Hinv as [-> ->].
    rewrite ensureCurrentState_unmonitored in He by done.
    injection He as <-.
    split; [split; [done|by intros [? ?]]|]. split; [done|]. done.
Qed.

Lemma ensureCurrentState_ensures_witness :
  ensureCurrentState idleRobot []
    = (true, withMonitor idleRobot (startStateMonitor idleMonitor),
       [StartStateMonitor; WaitForCurrentState 1 false; ROS_WARN not_known_msg]) ∧
  (true = true ↔ is_Some (current_state_monitor_ idleRobot)) ∧
  ∃ mon1, current_state_monitor_ (withMonitor idleRobot (startStateMonitor idleMonitor))
            = Some mon1 ∧ isActive mon1 = true.
Proof.
  assert (He : ensureCurrentState idleRobot []
    = (true, withMonitor idleRobot (startStateMonitor idleMonitor),
       [StartStateMonitor; WaitForCurrentState 1 false; ROS_WARN not_known_msg]))
    by (vm_compute; reflexivity).
  destruct (ensureCurrentState_ensures idleRobot [] _ _ _ He) as (_ & Hiff & Htrue & _).
  split; [exact He|]. split; [exact Hiff|]. exact (Htrue eq_refl).
Defined.

(** ** X7: the shape of the joint limits *)

(** X7.  With a model in place [getJointLimits] returns one entry for each
    variable limit of the joint, in order, each entry being the two-element
    list of the minimum then the maximum position; for a joint the model does
    not have the list is empty. *)
Theorem getJointLimits_shape ri m name :
  robot_model_ ri = Some m →
  ∃ l, getJointLimits ri name = Returns l ∧
       Forall (λ entry, length entry = 2) l ∧
       match getJointModel m name with
       | None => l = []
       | Some jm =>
         length l = length (getVariableLimits jm) ∧
         ∀ i lim, getVariableLimits jm !! i = Some lim →
                  l !! i = Some [min_position lim; max_position lim]
       end.
Proof.
  intros Hm. unfold getJointLimits. rewrite Hm.
  destruct (getJointModel m name) as [jm|].
  - eexists. split; [done|]. split; [|split].
    + apply Forall_fmap. by apply Forall_true.
    + by rewrite length_fmap.
    + intros i lim Hlim. by rewrite list_lookup_fmap, Hlim.
  - exists []. by repeat split.
Qed.

Lemma getJointLimits_shape_witness :
  robot_model_ idleRobot = Some arm ∧
  ∃ l, getJointLimits idleRobot "elbow" = Returns l ∧
       Forall (λ entry, length entry = 2) l ∧
       length l = 1 ∧
       ∀ i lim, getVariableLimits elbow !! i = Some lim →
                l !! i = Some [min_position lim; max_position lim].
Proof.
  split; [reflexivity|].
  exact (getJointLimits_shape idleRobot arm "elbow" eq_refl).
Defined.

(** ** X8: live-state queries and the model handle *)

(** X8.  A live-state query never goes through the model handle: it returns
    on every interface, one whose model handle is null included, and leaves
    the model handle as it found it. *)
Theorem live_queries_need_no_model quat ri c arrivals :
  modelOnly c = false →
  ∃ v ri1 log,
    call quat ri c arrivals = Returns (v, ri1, log) ∧
    robot_model_ ri1 = robot_model_ ri.
Proof.
  intros Hc.
  assert (Hret : ∃ v ri1 log, call quat ri c arrivals = Returns (v, ri1, log)).
  { destruct c; try discriminate Hc; simpl.
    - destruct (getLinkPose_returns quat ri name arrivals) as (p & r & l & -> & _).
      simpl. eauto.
    - destruct (getCurrentVariableValues_returns ri arrivals) as (d & r & l & ->).
      simpl. eauto.
    - unfold getCurrentJointValues.
      destruct (ensureCurrentState ri arrivals) as [[ok r] l] eqn:He.
      apply ensureCurrentState_inv in He as [_ He].
      destruct (current_state_monitor_ ri) as [mon|].
      + destruct He as (-> & mon1 & -> & _). simpl.
        destruct (getJointState _ _); simpl; eauto.
      + destruct He as [-> ->]. simpl. eauto. }
  destruct Hret as (v & ri1 & log & Hcall).
  exists v, ri1, log. split; [done|].
  by apply call_step in Hcall as [Hm _].
Qed.

Lemma live_queries_need_no_model_witness :
  robot_model_ modellessRobot = None ∧
  ∃ v ri1 log,
    call noRotation modellessRobot (get_link_pose "hand") [] = Returns (v, ri1, log) ∧
    robot_model_ ri1 = robot_model_ modellessRobot.
Proof.
  split; [reflexivity|].
  exact (live_queries_need_no_model noRotation modellessRobot (get_link_pose "hand") []
           eq_refl).
Defined.

Example get_link_pose_without_model :
  call noRotation modellessRobot (get_link_pose "hand") [] =
    Returns (PyDoubles [0.25; 0; 1.5; 0; 0; 0; 1]%float,
             {| robot_model_ := None;
                current_state_monitor_ := Some (startStateMonitor idleMonitor) |},
             [StartStateMonitor; WaitForCurrentState 1 false; ROS_WARN not_known_msg]).
Proof. vm_compute. reflexivity. Qed.

(** ** X9: group names the model cannot resolve *)

Lemma findMinContainingGroup_loop_dangling m joint_name gnames :
  ∀ group gname,
    gname ∈ gnames → getJointModelGroup m gname = None →
    findMinContainingGroup_loop m joint_name gnames group = NullDereference.
Proof.
  induction gnames as [|g gnames IH]; intros group gname Hin Hnone; simpl.
  - by apply elem_of_nil in Hin.
  - destruct (getJointModelGroup m g) as [jmg|] eqn:Hg; [|done].
    apply elem_of_cons in Hin as [-> | Hin]; [congruence|].
    by apply (IH _ gname).
Qed.

(** X9.  With a model in place, [findMinContainingGroup] goes through a
    null pointer exactly when some declared group name does not resolve to a
    group, wherever in the declaration order that name stands and whatever
    joint is asked for; when all names resolve it returns. *)
Theorem findMinContainingGroup_null_iff ri m joint_name :
  robot_model_ ri = Some m →
  findMinContainingGroup ri joint_name = NullDereference ↔
  ∃ gname, gname ∈ getJointModelGroupNames m ∧ getJointModelGroup m gname = None.
Proof.
  intros Hm. unfold findMinContainingGroup. rewrite Hm. split.
  - destruct (findMinContainingGroup_loop m joint_name (getJointModelGroupNames m) None)
      as [group|] eqn:Hloop; [done|]. intros _.
    by apply findMinContainingGroup_loop_null in Hloop.
  - intros (gname & Hin & Hnone).
    by rewrite (findMinContainingGroup_loop_dangling m joint_name _ None gname).
Qed.

Lemma findMinContainingGroup_null_iff_witness :
  getJointModelGroup (withGroupNames arm ["arm"; "upper"; "gripper"]) "gripper" = None ∧
  findMinContainingGroup danglingRobot "shoulder" = NullDereference.
Proof.
  assert (Hnone : getJointModelGroup (withGroupNames arm ["arm"; "upper"; "gripper"])
                    "gripper" = None) by (vm_compute; reflexivity).
  split; [exact Hnone|].
  apply (findMinContainingGroup_null_iff danglingRobot
           (withGroupNames arm ["arm"; "upper"; "gripper"]) "shoulder" eq_refl).
  exists "gripper". split; [|exact Hnone].
  apply (bool_decide_unpack _). vm_compute. reflexivity.
Defined.

(** ** X10: what the value queries return *)

(** X10.  [getCurrentVariableValues] and [getCurrentJointValues] return on
    every interface, and what they return is read off the interface they
    leave: the value map of its monitor, entry for entry, and the values of
    the joint state of that name in its monitor's state; empty when there is
    no monitor, and empty for a joint the state has no joint state for. *)
Theorem value_queries_serve_the_monitor ri joint arrivals :
  (∃ d ri1 log,
     getCurrentVariableValues ri arrivals = Returns (d, ri1, log) ∧
     match current_state_monitor_ ri1 with
     | None => d = ∅
     | Some mon1 => ∀ v, d !! v = getCurrentStateValues mon1 !! v
     end) ∧
  (∃ l ri1 log,
     getCurrentJointValues ri joint arrivals = Returns (l, ri1, log) ∧
     match current_state_monitor_ ri1 with
     | None => l = []
     | Some mon1 =>
       match getJointState (getCurrentState mon1) joint with
       | None => l = []
       | Some js => l = getVariableValues js
       end
     end).
Proof.
  destruct (current_state_monitor_ ri) as [mon|] eqn:Hmon.
  - destruct (waitForCurrentState_total (startStateMonitor mon) 1 arrivals)
      as (complete & mon' & Hw).
    split.
    + eexists _, _, _. split; [by apply getCurrentVariableValues_run|]. done.
    + destruct (isActive mon) eqn:Ha.
      * eexists _, _, _.
        split; [by apply (getCurrentJointValues_run_active ri mon)|].
        rewrite Hmon. unfold servedJointValues. by destruct (getJointState _ _).
      * eexists _, _, _.
        split; [by apply (getCurrentJointValues_run_inactive ri mon)|].
        simpl. unfold servedJointValues. by destruct (getJointState _ _).
  - split.
    + eexists _, _, _. split; [by apply getCurrentVariableValues_unmonitored|].
      by rewrite Hmon.
    + eexists _, _, _. split; [by apply getCurrentJointValues_unmonitored|].
      by rewrite Hmon.
Qed.

(** ** X11: declaration order without ties *)

Lemma mapM_elem_of {A B} (f : A → option B) l k y :
  mapM f l = Some k → y ∈ k ↔ ∃ x, x ∈ l ∧ f x = Some y.
Proof.
  intros Hk%mapM_Some_1. split.
  - intros [i Hi]%list_elem_of_lookup_1.
    destruct (Forall2_lookup_r _ _ _ _ _ Hk Hi) as (x & Hx & Hfx).
    exists x. split; [by eapply list_elem_of_lookup_2|done].
  - intros (x & [i Hi]%list_elem_of_lookup_1 & Hfx).
    destruct (Forall2_lookup_l _ _ _ _ _ Hk Hi) as (y' & Hy' & Hfy').
    assert (y' = y) as -> by congruence.
    by eapply list_elem_of_lookup_2.
Qed.

(** Two lists of groups with the same members, none two of which that have
    the joint agree on the variable count, have the same pick. *)
Lemma minContaining_agree groups groups' joint_name r r' :
  (∀ g, g ∈ groups ↔ g ∈ groups') →
  (∀ g g', g ∈ groups → g' ∈ groups →
           hasJointModel g joint_name = true → hasJointModel g' joint_name = true →
           getVariableCount g = getVariableCount g' → g = g') →
  minContaining groups joint_name r →
  minContaining groups' joint_name r' →
  r = r'.
Proof.
  intros Hsame Hties Hr Hr'.
  destruct r as [g|], r' as [g'|]; simpl in *; [| | |done].
  - destruct Hr as (i & Hi & Hg & Hmin), Hr' as (i' & Hi' & Hg' & Hmin').
    assert (Hin : g ∈ groups) by (by eapply list_elem_of_lookup_2).
    assert (Hin' : g' ∈ groups) by (apply Hsame; by eapply list_elem_of_lookup_2).
    destruct (list_elem_of_lookup_1 _ _ Hin') as [j Hj].
    destruct (list_elem_of_lookup_1 _ _ (proj1 (Hsame g) Hin)) as [j' Hj'].
    destruct (Hmin j g' Hj Hg') as [Hle _].
    destruct (Hmin' j' g Hj' Hg) as [Hle' _].
    f_equal. apply Hties; try done. lia.
  - destruct Hr as (i & Hi & Hg & _).
    assert (Hin : g ∈ groups') by (apply Hsame; by eapply list_elem_of_lookup_2).
    apply Hr' in Hin. congruence.
  - destruct Hr' as (i' & Hi' & Hg' & _).
    assert (Hin : g' ∈ groups) by (apply Hsame; by eapply list_elem_of_lookup_2).
    apply Hr in Hin. congruence.
Qed.

(** X11.  The order in which the groups are declared decides between
    groups of equal variable count only: on two models with the same groups,
    declared in different orders, [findMinContainingGroup] gives the same
    answer for a joint whose containing groups all differ in their variable
    counts. *)
Theorem findMinContainingGroup_order_free ri ri' m m' groups joint_name :
  robot_model_ ri = Some m →
  robot_model_ ri' = Some m' →
  joint_model_group_map_ m' = joint_model_group_map_ m →
  getJointModelGroupNames m' ≡ₚ getJointModelGroupNames m →
  mapM (getJointModelGroup m) (getJointModelGroupNames m) = Some groups →
  (∀ g g', g ∈ groups → g' ∈ groups →
           hasJointModel g joint_name = true → hasJointModel g' joint_name = true →
           getVariableCount g = getVariableCount g' → g = g') →
  findMinContainingGroup ri' joint_name = findMinContainingGroup ri joint_name.
Proof.
  intros Hm Hm' Hmap Hperm Hgroups Hties.
  assert (Hf : ∀ n, getJointModelGroup m' n = getJointModelGroup m n).
  { intros n. unfold getJointModelGroup. by rewrite Hmap. }
  assert (Hall : Forall (is_Some ∘ getJointModelGroup m) (getJointModelGroupNames m)).
  { apply mapM_is_Some_1. by eexists. }
  assert (Hsome : is_Some (mapM (getJointModelGroup m') (getJointModelGroupNames m'))).
  { apply mapM_is_Some_2. rewrite Hperm.
    eapply Forall_impl; [exact Hall|].
    intros n Hn. simpl in *. by rewrite Hf. }
  destruct Hsome as [groups' Hgroups'].
  assert (Hsame : ∀ g, g ∈ groups ↔ g ∈ groups').
  { intros g. rewrite (mapM_elem_of _ _ _ g Hgroups), (mapM_elem_of _ _ _ g Hgroups').
    split; intros (n & Hn & Hg); exists n.
    - split; [by rewrite Hperm|by rewrite Hf].
    - split; [by rewrite <- Hperm|by rewrite <- Hf]. }
  destruct (findMinContainingGroup_loop_spec m joint_name
              (getJointModelGroupNames m) [] groups None Hgroups) as (r & Hr & Hmin).
  { simpl. intros g Hg. by apply elem_of_nil in Hg. }
  destruct (findMinContainingGroup_loop_spec m' joint_name
              (getJointModelGroupNames m') [] groups' None Hgroups') as (r' & Hr' & Hmin').
  { simpl. intros g Hg. by apply elem_of_nil in Hg. }
  simpl in Hmin, Hmin'.
  unfold findMinContainingGroup. rewrite Hm, Hm', Hr, Hr'.
  by rewrite (minContaining_agree groups groups' joint_name r r').
Qed.

Lemma findMinContainingGroup_order_free_witness :
  getJointModelGroupNames (withGroupNames arm ["upper"; "lower"; "arm"])
    ≡ₚ getJointModelGroupNames arm ∧
  findMinContainingGroup reorderedRobot "shoulder"
    = findMinContainingGroup idleRobot "shoulder".
Proof.
  assert (Hperm : getJointModelGroupNames (withGroupNames arm ["upper"; "lower"; "arm"])
                    ≡ₚ getJointModelGroupNames arm).
  { change (["upper"; "lower"; "arm"] ≡ₚ ["arm"; "lower"; "upper"]).
    apply (reverse_Permutation ["arm"; "lower"; "upper"]). }
  split; [exact Hperm|].
  apply (findMinContainingGroup_order_free idleRobot reorderedRobot arm
           (withGroupNames arm ["upper"; "lower"; "arm"])
           [armGroup; lowerGroup; upperGroup] "shoulder");
    [reflexivity | reflexivity | reflexivity | exact Hperm | vm_compute; reflexivity |].
  intros g g' Hg Hg' Hhas Hhas' Hcount.
  apply list_elem_of_In in Hg, Hg'. simpl in Hg, Hg'.
  destruct Hg as [<-|[<-|[<-|[]]]]; destruct Hg' as [<-|[<-|[<-|[]]]];
    try reflexivity;
    try (vm_compute in Hhas; discriminate Hhas);
    try (vm_compute in Hhas'; discriminate Hhas');
    vm_compute in Hcount; discriminate Hcount.
Defined.

(** With a tie the order does decide: the elbow is in two groups of two
    variables, and each declaration order picks its own first. *)
Example findMinContainingGroup_tie_follows_order :
  findMinContainingGroup idleRobot "elbow" = Returns (Some "lower") ∧
  findMinContainingGroup reorderedRobot "elbow" = Returns (Some "upper").
Proof. split; vm_compute; reflexivity. Qed.
